(** * SummifyX: the content-adaptive summarisation pipeline of generalUtils.py

    A shallow embedding of [generalUtils.py] and the properties of its
    token estimator, content classifier, summarisation orchestrator and
    text sanitiser, followed by the transcript loader of [ytUtils.py].

    Texts are Python [str] values.  They are modelled as lists of
    characters, a character being a code point below 256 (the Latin-1
    range), which Rocq's [ascii] holds.  Python's character tests
    ([str.isspace], [\s], [\w], [\d], [str.lower]) are written out for
    that range. *)

From Stdlib Require Import Ascii String DecimalString.
From Stdlib Require Import Bool Arith ZArith QArith Qround Lia List.
Import ListNotations.

Close Scope Q_scope.
Set Implicit Arguments.

(** ** Python strings *)

Module PyStr.

Definition text := list ascii.

(** A literal of the source. *)
Definition lit (s : string) : text := list_ascii_of_string s.

Definition code (c : ascii) : N := N_of_ascii c.

Definition char_eqb (a b : ascii) : bool := Ascii.eqb a b.

Definition nl : ascii := ascii_of_nat 10.

(** [lo <= code c <= hi] *)
Definition between (lo hi : N) (c : ascii) : bool :=
  ((lo <=? code c) && (code c <=? hi))%N.

Definition code_is (n : N) (c : ascii) : bool := (code c =? n)%N.

(** [str.isspace] on one character, which is also the regex class [\s]:
    TAB, LF, VT, FF, CR, the separators FS, GS, RS, US, the space, NEL and
    the no-break space. *)
Definition isspace (c : ascii) : bool :=
  between 9 13 c || between 28 32 c || code_is 133 c || code_is 160 c.

(** The regex class [\d]. *)
Definition isdigit (c : ascii) : bool := between 48 57 c.

Definition isupper_ascii (c : ascii) : bool := between 65 90 c.

Definition islower_ascii (c : ascii) : bool := between 97 122 c.

(** The regex class [\w]: alphanumeric characters and the underscore. *)
Definition isword (c : ascii) : bool :=
  isdigit c || isupper_ascii c || islower_ascii c || code_is 95 c
  || code_is 170 c || code_is 178 c || code_is 179 c || code_is 181 c
  || code_is 185 c || code_is 186 c || between 188 190 c
  || between 192 214 c || between 216 246 c || between 248 255 c.

(** [str.lower] on one character: A-Z and the Latin-1 capitals move up
    by 32. *)
Definition lower_char (c : ascii) : ascii :=
  if isupper_ascii c || between 192 214 c || between 216 222 c
  then ascii_of_N (code c + 32) else c.

Definition lower (s : text) : text := map lower_char s.

(** [s.lstrip()], [s.rstrip()] and [s.strip()]. *)
Fixpoint lstrip (s : text) : text :=
  match s with
  | c :: r => if isspace c then lstrip r else s
  | [] => []
  end.

Fixpoint rstrip (s : text) : text :=
  match s with
  | [] => []
  | c :: r =>
      match rstrip r with
      | [] => if isspace c then [] else [c]
      | kept => c :: kept
      end
  end.

Definition strip (s : text) : text := rstrip (lstrip s).

(** [s.startswith(p)]. *)
Fixpoint startswith (p s : text) : bool :=
  match p, s with
  | [], _ => true
  | a :: p', b :: s' => char_eqb a b && startswith p' s'
  | _ :: _, [] => false
  end.

(** [p in s]: [p] occurs in [s] as a substring. *)
Fixpoint contains (p s : text) : bool :=
  startswith p s ||
  match s with
  | [] => false
  | _ :: r => contains p r
  end.

(** [sep.join(parts)]. *)
Fixpoint join (sep : text) (parts : list text) : text :=
  match parts with
  | [] => []
  | [p] => p
  | p :: rest => p ++ sep ++ join sep rest
  end.

(** [s.split()]: the maximal runs of non-space characters, in order.
    [cur] is the word being read, reversed. *)
Fixpoint split_from (cur : text) (s : text) : list text :=
  match s with
  | [] => match cur with [] => [] | _ => [rev cur] end
  | c :: r =>
      if isspace c
      then match cur with
           | [] => split_from [] r
           | _ => rev cur :: split_from [] r
           end
      else split_from (c :: cur) r
  end.

Definition split (s : text) : list text := split_from [] s.

(** [s.count(p)] for a non-empty [p]: occurrences that do not overlap,
    counted from the left.  [skip] characters of the last occurrence are
    still to be passed. *)
Fixpoint count_from (p : text) (skip : nat) (s : text) : nat :=
  match s with
  | [] => 0
  | _ :: r =>
      match skip with
      | S k => count_from p k r
      | O => if startswith p s
             then S (count_from p (length p - 1) r)
             else count_from p 0 r
      end
  end.

Definition count (p s : text) : nat := count_from p 0 s.

(** [str(n)] for an integer. *)
Definition str_of_Z (z : Z) : text :=
  lit (NilZero.string_of_int (Z.to_int z)).

End PyStr.

Import PyStr.

(** ** Constants (generalUtils.py, lines 17-20) *)

Definition MAX_TOKENS : Z := 6000.
Definition MIN_CHUNK_SIZE : nat := 500.
Definition MAX_CHUNK_SIZE : nat := 2000.
Definition CHUNK_OVERLAP : nat := 300.

(** ** Token estimator (generalUtils.py, lines 22-38)

    The source computes in binary floating point; the model computes the
    same expression in exact rationals.  [int] truncates towards zero. *)

Definition int_of_Q (q : Q) : Z :=
  if Qle_bool 0 q then Qfloor q else Qceiling q.

Definition estimate_tokens (t : text) : Z :=
  match t with
  | [] => 0%Z
  | _ =>
      let words := Z.of_nat (length (split t)) in
      let chars := Z.of_nat (length t) in
      let word_based_tokens := (inject_Z words * (13 # 10))%Q in
      let char_based_tokens := (inject_Z chars / (35 # 10))%Q in
      int_of_Q ((word_based_tokens + char_based_tokens) / 2)%Q
  end.

(** The estimate as the specification words it, with no guard for the
    empty text: the formula, rounded down. *)
Definition estimate_tokens_spec (t : text) : Z :=
  let word_count := Z.of_nat (length (split t)) in
  let char_count := Z.of_nat (length t) in
  Qfloor ((inject_Z word_count * (13 # 10) + inject_Z char_count / (35 # 10)) / 2)%Q.

(** ** Documents and content types *)

Record Document := mkDocument {
  page_content : text;
  metadata : list (text * text)
}.

Inductive ContentType := technical | narrative | general.

Definition content_type_name (ct : ContentType) : text :=
  match ct with
  | technical => lit "technical"
  | narrative => lit "narrative"
  | general => lit "general"
  end.

(** ** Content classifier (generalUtils.py, lines 75-107) *)

Definition technical_indicators : list text :=
  map lit
    ["algorithm"; "function"; "method"; "class"; "variable"; "data structure";
     "implementation"; "code"; "programming"; "software"; "api"; "database";
     "framework"; "library"; "python"; "javascript"; "java"; "c++"; "sql"]%string.

Definition narrative_indicators : list text :=
  map lit
    ["story"; "character"; "plot"; "narrative"; "chapter"; "scene";
     "dialogue"; "protagonist"; "antagonist"; "setting"; "theme"]%string.

(** [" ".join(doc.page_content for doc in docs[:3]).lower()] *)
Definition sample_text (docs : list Document) : text :=
  lower (join (lit " ") (map page_content (firstn 3 docs))).

(** [sum(1 for indicator in indicators if indicator in text_lower)] *)
Definition indicator_score (indicators : list text) (text_lower : text) : nat :=
  list_sum (map (fun _ => 1) (filter (fun indicator => contains indicator text_lower) indicators)).

Definition technical_score (docs : list Document) : nat :=
  indicator_score technical_indicators (sample_text docs).

Definition narrative_score (docs : list Document) : nat :=
  indicator_score narrative_indicators (sample_text docs).

Definition detect_content_type (docs : list Document) : ContentType :=
  match docs with
  | [] => general
  | _ =>
      if (narrative_score docs <? technical_score docs) && (3 <? technical_score docs)
      then technical
      else if (technical_score docs <? narrative_score docs) && (2 <? narrative_score docs)
      then narrative
      else general
  end.

(** The classifier as the specification words it: the page contents of
    the first three documents are concatenated and lower-cased, and the
    occurrences of the keywords of each set are counted. *)
Definition occurrence_count (keywords : list text) (t : text) : nat :=
  list_sum (map (fun k => count k t) keywords).

Definition detect_content_type_spec (docs : list Document) : ContentType :=
  let t := lower (concat (map page_content (firstn 3 docs))) in
  let technical_count := occurrence_count technical_indicators t in
  let narrative_count := occurrence_count narrative_indicators t in
  if (narrative_count <? technical_count) && (3 <? technical_count) then technical
  else if (technical_count <? narrative_count) && (2 <? narrative_count) then narrative
  else general.

(** ** Prompt builder (generalUtils.py, lines 109-245)

    The templates are the source's literals.  Their bullet character
    (U+2022) lies outside the character range of the model and is kept as
    the three bytes of its UTF-8 encoding; no property below looks inside
    a template. *)

Definition technical_stuff_template : text := lit "
        Create a comprehensive technical summary of the following content.
        
        Structure your summary as follows:
        1. **Title**: Create a clear, descriptive title
        2. **Overview**: Brief introduction explaining what this content covers
        3. **Key Concepts**: List and explain the main technical concepts, methods, or algorithms
        4. **Important Details**: Highlight critical technical details, specifications, or implementation notes
        5. **Conclusion**: Summarize the main takeaways and practical applications
        
        Focus on technical accuracy and include specific terminology.
        
        Content: {text}
        ".

Definition technical_map_template : text := lit "
        Summarize this technical content section, focusing on:
        - Key technical concepts and methods
        - Important specifications or parameters
        - Critical implementation details
        - Any algorithms or processes described
        
        Content: {text}
        ".

Definition technical_combine_template : text := lit "
        Create a comprehensive technical summary from these section summaries.
        
        Structure as:
        **Title**: [Descriptive technical title]
        **Overview**: [What this covers technically]
        **Key Technical Concepts**: 
        • [List main concepts with brief explanations]
        **Implementation Details**: 
        • [Important technical specifications]
        **Conclusion**: [Main technical takeaways and applications]
        
        Section summaries: {text}
        ".

Definition narrative_stuff_template : text := lit "
        Create an engaging summary of this narrative content.
        
        Structure your summary as follows:
        1. **Title**: Create an engaging title that captures the essence
        2. **Introduction**: Set the context and main theme
        3. **Key Points**: Main events, characters, or story elements in chronological order
        4. **Important Themes**: Central themes, messages, or lessons
        5. **Conclusion**: How it concludes and the overall impact
        
        Maintain the narrative flow and emotional tone.
        
        Content: {text}
        ".

Definition narrative_map_template : text := lit "
        Summarize this narrative section, preserving:
        - Key events or developments
        - Important character interactions
        - Significant plot points or themes
        - Emotional tone and context
        
        Content: {text}
        ".

Definition narrative_combine_template : text := lit "
        Create a cohesive narrative summary from these section summaries.
        
        Structure as:
        **Title**: [Engaging title]
        **Introduction**: [Context and setting]
        **Story Development**: 
        • [Key events in order]
        **Main Themes**: 
        • [Central themes and messages]
        **Conclusion**: [Resolution and impact]
        
        Section summaries: {text}
        ".

Definition general_stuff_template : text := lit "
        Create a comprehensive and well-structured summary of the following content.
        
        Format your response as:
        1. **Title**: Create a clear, descriptive title
        2. **Introduction**: Brief overview of the main topic and purpose
        3. **Key Points**: 
           • Main ideas and important information organized logically
           • Use bullet points for clarity
        4. **Important Details**: 
           • Significant facts, figures, or examples
           • Any actionable items or recommendations
        5. **Conclusion**: Summarize the main takeaways and significance
        
        Ensure the summary is informative, well-organized, and captures the essential information.
        
        Content: {text}
        ".

Definition general_map_template : text := lit "
        Create a concise summary of this content section, focusing on:
        - Main ideas and key information
        - Important facts or data points
        - Any conclusions or recommendations
        
        Keep it clear and informative.
        
        Content: {text}
        ".

Definition general_combine_template : text := lit "
        Create a comprehensive final summary from these section summaries.
        
        Structure as:
        **Title**: [Clear descriptive title]
        **Introduction**: [Overview of the topic]
        **Key Information**: 
        • [Main points organized logically]
        **Important Details**: 
        • [Significant facts and insights]
        **Conclusion**: [Main takeaways and significance]
        
        Section summaries: {text}
        ".

Record PromptSet := mkPromptSet {
  stuff_prompt : text;
  map_prompt : text;
  combine_prompt : text
}.

Definition create_enhanced_prompts (content_type : ContentType) : PromptSet :=
  match content_type with
  | technical =>
      mkPromptSet technical_stuff_template technical_map_template
        technical_combine_template
  | narrative =>
      mkPromptSet narrative_stuff_template narrative_map_template
        narrative_combine_template
  | general =>
      mkPromptSet general_stuff_template general_map_template
        general_combine_template
  end.

(** ** Exceptions, the log and the language model

    A computation of the pipeline runs in a state made of the external
    world of the language model and the trace of what the run has done so
    far: the messages given to the logger and the prompts sent to the
    model.  It ends with a value or with a raised exception; the state
    reached is kept in both cases. *)

Inductive ExnKind := ValueError | RuntimeError | OtherException.

Record Exn := mkExn { exn_kind : ExnKind; exn_msg : text }.

Inductive Event :=
| LogInfo (msg : text)
| LogWarning (msg : text)
| LogError (msg : text)
| LLMCall (prompt : text).

Definition is_call (e : Event) : bool :=
  match e with LLMCall _ => true | _ => false end.

Definition is_warning (e : Event) : bool :=
  match e with LogWarning _ => true | _ => false end.

Section Pipeline.

(** The state of the service behind the LLM handle, and the handle: a
    prompt is answered by a completion or by an exception. *)
Variable World : Type.
Variable llm : text -> World -> (Exn + text) * World.

(** [RecursiveCharacterTextSplitter(chunk_size, chunk_overlap, ...)
    .split_documents(docs)] of the text-splitter library, which may
    raise. *)
Variable split_documents : nat -> nat -> list Document -> Exn + list Document.

(** The separator the chains put between the texts they concatenate. *)
Variable document_separator : text.

Record State := mkState { world : World; trace : list Event }.

Definition M (A : Type) : Type := State -> (Exn + A) * State.

Definition ret {A} (a : A) : M A := fun st => (inr a, st).

Definition raise {A} (e : Exn) : M A := fun st => (inl e, st).

Definition bind {A B} (m : M A) (f : A -> M B) : M B :=
  fun st =>
    match m st with
    | (inr a, st') => f a st'
    | (inl e, st') => (inl e, st')
    end.

(** [try: m except Exception as e: h e] *)
Definition try_except {A} (m : M A) (h : Exn -> M A) : M A :=
  fun st =>
    match m st with
    | (inr a, st') => (inr a, st')
    | (inl e, st') => h e st'
    end.

Notation "x <- m ;; k" := (bind m (fun x => k))
  (at level 61, m at next level, right associativity).
Notation "m ;;; k" := (bind m (fun _ => k))
  (at level 61, right associativity).

Definition emit (e : Event) : M unit :=
  fun st => (inr tt, mkState (world st) (trace st ++ [e])).

Definition logger_info (msg : text) : M unit := emit (LogInfo msg).
Definition logger_warning (msg : text) : M unit := emit (LogWarning msg).
Definition logger_error (msg : text) : M unit := emit (LogError msg).

(** One invocation of the model. *)
Definition invoke (prompt : text) : M text :=
  fun st =>
    let (r, w) := llm prompt (world st) in
    (r, mkState w (trace st ++ [LLMCall prompt])).

(** An exception that some invocation of the model raises. *)
Definition raised_by_llm (e : Exn) : Prop :=
  exists prompt w, fst (llm prompt w) = inl e.

Fixpoint mapM {A B} (f : A -> M B) (l : list A) : M (list B) :=
  match l with
  | [] => ret []
  | a :: r => b <- f a ;; bs <- mapM f r ;; ret (b :: bs)
  end.

(** The prompts sent to the model in a trace. *)
Definition llm_calls (tr : list Event) : list text :=
  flat_map (fun e => match e with LLMCall p => [p] | _ => [] end) tr.

(** ** Chunker (generalUtils.py, lines 40-73) *)

Definition chunk_documents (docs : list Document) (content_type : ContentType)
  : M (list Document) :=
  let '(chunk_size, chunk_overlap) :=
    match content_type with
    | technical => (MIN_CHUNK_SIZE, 200)
    | narrative => (MAX_CHUNK_SIZE, CHUNK_OVERLAP)
    | general => (1200, 250)
    end in
  match split_documents chunk_size chunk_overlap docs with
  | inr split_docs =>
      let split_docs :=
        filter (fun doc => 50 <? length (strip (page_content doc))) split_docs in
      logger_info (lit "Created " ++ str_of_Z (Z.of_nat (length split_docs))
                   ++ lit " chunks from " ++ str_of_Z (Z.of_nat (length docs))
                   ++ lit " documents") ;;;
      ret split_docs
  | inl e =>
      logger_error (lit "Error in document chunking: " ++ exn_msg e) ;;;
      ret docs
  end.

(** ** The summarisation chains

    [load_summarize_chain] and [PromptTemplate] belong to the chain
    library, outside this repository. *)

(** Modelled from the spec: [PromptTemplate.format] of the chain library;
    the placeholder [{text}] of a template is replaced by the injected
    text.  [skip] characters of the placeholder are still to be passed. *)
Fixpoint format_from (txt : text) (skip : nat) (template : text) : text :=
  match template with
  | [] => []
  | c :: r =>
      match skip with
      | S k => format_from txt k r
      | O => if startswith (lit "{text}") template
             then txt ++ format_from txt 5 r
             else c :: format_from txt 0 r
      end
  end.

Definition format_prompt (template txt : text) : text :=
  format_from txt 0 template.

(** Modelled from the spec: the chain [load_summarize_chain(llm,
    chain_type="stuff", prompt=...)]; the single-pass strategy formats
    the stuff prompt with the full concatenated text and invokes the
    model once. *)
Definition stuff_chain (prompt : text) (docs : list Document) : M text :=
  invoke (format_prompt prompt (join document_separator (map page_content docs))).

(** Modelled from the spec: the chain [load_summarize_chain(llm,
    chain_type="map_reduce", map_prompt=..., combine_prompt=...)]; the
    model is invoked once per chunk with the map prompt, in sequence,
    then once more with the combine prompt over the concatenated chunk
    summaries. *)
Definition map_reduce_chain (map_p combine_p : text) (docs : list Document)
  : M text :=
  summaries <- mapM (fun doc => invoke (format_prompt map_p (page_content doc))) docs ;;
  invoke (format_prompt combine_p (join document_separator summaries)).

(** ** Summarisation orchestrator (generalUtils.py, lines 247-299) *)

Definition too_short : Exn :=
  mkExn ValueError (lit "Generated summary is too short").

Definition fallback_summary : text :=
  lit "Summary generation failed after multiple attempts.".

Definition retries_exhausted (max_retries : Z) (e : Exn) : Exn :=
  mkExn RuntimeError
    (lit "Failed to generate summary after " ++ str_of_Z max_retries
     ++ lit " attempts: " ++ exn_msg e).

Definition attempt_failed (attempt : Z) (e : Exn) : text :=
  lit "Attempt " ++ str_of_Z (attempt + 1) ++ lit " failed: " ++ exn_msg e.

Section Summarize.

(** The values fixed before the loop: the non-blank documents, their
    content type, the token estimate and the prompts. *)
Variable docs : list Document.
Variable content_type : ContentType.
Variable total_tokens : Z.
Variable prompts : PromptSet.

(** Lines 273-286: the strategy and the run of its chain. *)
Definition run_chain : M text :=
  if (total_tokens <? MAX_TOKENS)%Z
  then
    logger_info (lit "Using 'stuff' chain for summarization") ;;;
    stuff_chain (stuff_prompt prompts) docs
  else
    logger_info (lit "Using 'map_reduce' chain for summarization") ;;;
    chunked_docs <- chunk_documents docs content_type ;;
    map_reduce_chain (map_prompt prompts) (combine_prompt prompts) chunked_docs.

(** Lines 288-292: the validation of a result. *)
Definition validate (result : text) : M text :=
  match result with
  | [] => raise too_short
  | _ => if length (strip result) <? 50
         then raise too_short
         else ret (strip result)
  end.

(** The body of the [try]. *)
Definition attempt_body : M text :=
  result <- run_chain ;; validate result.

(** [for attempt in range(max_retries)], from the index [attempt] on with
    [remaining] rounds left, and the [return] after the loop. *)
Fixpoint retry_loop (max_retries : Z) (remaining : nat) (attempt : Z) : M text :=
  match remaining with
  | O => ret fallback_summary
  | S remaining' =>
      try_except attempt_body
        (fun e =>
           logger_warning (attempt_failed attempt e) ;;;
           if (attempt =? max_retries - 1)%Z
           then raise (retries_exhausted max_retries e)
           else retry_loop max_retries remaining' (attempt + 1))
  end.

End Summarize.

(** [n] rounds of the loop in a row, from the index [i] on, in each of
    which the same [body] is run and fails and the warning is logged;
    [errs] are the exceptions caught, in order. *)
Inductive failed_attempts (body : M text)
  : nat -> Z -> State -> list Exn -> State -> Prop :=
| failed_none (i : Z) (st : State) :
    failed_attempts body 0 i st [] st
| failed_next (n : nat) (i : Z) (st st1 st2 : State) (e : Exn) (es : list Exn) :
    body st = (inl e, st1) ->
    failed_attempts body n (i + 1)
      (snd (logger_warning (attempt_failed i e) st1)) es st2 ->
    failed_attempts body (S n) i st (e :: es) st2.

Definition nonblank (doc : Document) : bool :=
  match strip (page_content doc) with [] => false | _ => true end.

Definition summarize_chain (docs : list Document) (max_retries : Z) : M text :=
  match docs with
  | [] => raise (mkExn ValueError (lit "No documents provided for summarization"))
  | _ =>
      let docs := filter nonblank docs in
      match docs with
      | [] => raise (mkExn ValueError (lit "All documents are empty"))
      | _ =>
          let content_type := detect_content_type docs in
          logger_info (lit "Detected content type: " ++ content_type_name content_type) ;;;
          let total_text := join (lit " ") (map page_content docs) in
          let total_tokens := estimate_tokens total_text in
          logger_info (lit "Estimated tokens: " ++ str_of_Z total_tokens) ;;;
          let prompts := create_enhanced_prompts content_type in
          retry_loop docs content_type total_tokens prompts
            max_retries (Z.to_nat max_retries) 0
      end
  end.

(** The state in which the loop starts: the two messages of lines 261 and
    266 have been logged. *)
Definition loop_start (docs : list Document) (st : State) : State :=
  let docs := filter nonblank docs in
  mkState (world st)
    ((trace st
      ++ [LogInfo (lit "Detected content type: "
                   ++ content_type_name (detect_content_type docs))])
     ++ [LogInfo (lit "Estimated tokens: "
                  ++ str_of_Z (estimate_tokens
                                 (join (lit " ") (map page_content docs))))]).

End Pipeline.

(** ** Sample collaborators

    A model that answers every prompt with the same text, a model that
    always raises, and a splitter that returns the documents as they
    are; their world has a single state. *)

Definition constant_llm (answer : text) : text -> unit -> (Exn + text) * unit :=
  fun _ w => (inr answer, w).

Definition failing_llm (e : Exn) : text -> unit -> (Exn + text) * unit :=
  fun _ w => (inl e, w).

Definition identity_splitter : nat -> nat -> list Document -> Exn + list Document :=
  fun _ _ docs => inr docs.

Definition paragraph_break : text := [nl; nl].

Definition initial_state : State unit := mkState tt [].

Definition sample_docs : list Document :=
  [mkDocument (lit "The quick brown fox jumps over the lazy dog.") []].

(** Sixty words with no structure marker among them. *)
Definition unstructured_answer : text := concat (repeat (lit "no ") 60).

Definition rate_limited : Exn := mkExn OtherException (lit "rate limit exceeded").

(** A text of 5003 characters that is mostly blank, and a text of 900
    characters made of an abbreviation. *)
Definition mostly_blank_text : text :=
  lit "a" ++ repeat " "%char 5000 ++ lit "b.".

Definition abbreviated_text : text := concat (repeat (lit "ML ") 300).

(** One document that repeats a single technical keyword four times. *)
Definition repeated_keyword_docs : list Document :=
  [mkDocument (lit "algorithm algorithm algorithm algorithm") []].

(** ** Summary quality check (generalUtils.py, lines 406-430) *)

Definition structure_markers : list text :=
  map lit ["title"; "introduction"; "conclusion"; "key"; "main"]%string.

Definition has_structure_marker (summary : text) : bool :=
  existsb (fun marker => contains marker (lower summary)) structure_markers.

Definition validate_summary_quality (summary : text) : bool * text :=
  match summary with
  | [] => (false, lit "Summary is empty or invalid")
  | _ =>
      let summary := strip summary in
      if length summary <? 100 then (false, lit "Summary is too short")
      else if 10000 <? length summary then (false, lit "Summary is too long")
      else if negb (has_structure_marker summary)
      then (false, lit "Summary lacks proper structure")
      else if length (split summary) <? 50
      then (false, lit "Summary has too few words")
      else (true, lit "Summary quality is acceptable")
  end.

(** ** Regular-expression substitution

    [re.sub(pattern, repl, text)] scans [text] from the left: at each
    position the pattern is tried; where it matches, the replacement is
    written and the scan goes on after the match; elsewhere the character
    is copied.  A pattern is given by its matcher: from the character
    before the position (for anchors, look-behinds and word boundaries)
    and the text from the position on, the replacement and the length of
    the match.  Every pattern of the sanitiser matches at least one
    character. *)

Module Re.

Definition matcher := option ascii -> text -> option (text * nat).

(** [skip] characters of the last match are still to be passed. *)
Fixpoint sub_from (m : matcher) (prev : option ascii) (skip : nat) (s : text) : text :=
  match s with
  | [] => []
  | c :: r =>
      match skip with
      | S k => sub_from m (Some c) k r
      | O =>
          match m prev s with
          | Some (out, n) => out ++ sub_from m (Some c) (n - 1) r
          | None => c :: sub_from m (Some c) 0 r
          end
      end
  end.

Definition sub (m : matcher) (s : text) : text := sub_from m None 0 s.

(** The length of the longest prefix whose characters satisfy [p]: a
    greedy [p*]. *)
Fixpoint span (p : ascii -> bool) (s : text) : nat :=
  match s with
  | c :: r => if p c then S (span p r) else 0
  | [] => 0
  end.

Definition ch (a : ascii) (c : ascii) : bool := char_eqb a c.

Definition notnl (c : ascii) : bool := negb (char_eqb c nl).

(** The lazy [(.*?)] followed by the literal [close]: the shortest run of
    characters other than the line feed after which [close] stands. *)
Fixpoint lazy_until (close : text) (s : text) : option text :=
  if startswith close s then Some []
  else
    match s with
    | [] => None
    | c :: r =>
        if notnl c then option_map (cons c) (lazy_until close r) else None
    end.

(** [open(.*?)close], replaced by the group. *)
Definition enclosed (open close : text) : matcher :=
  fun _ s =>
    if startswith open s
    then match lazy_until close (skipn (length open) s) with
         | Some g => Some (g, length open + length g + length close)
         | None => None
         end
    else None.

(** The header pattern: one to six hashes, greedy white space, then the
    rest of the line as the group; replaced by the group. *)
Definition header : matcher :=
  fun _ s =>
    match span (ch "#"%char) s with
    | O => None
    | S _ as hashes =>
        let h := Nat.min 6 hashes in
        let s1 := skipn h s in
        let w := span isspace s1 in
        let g := firstn (span notnl (skipn w s1)) (skipn w s1) in
        Some (g, h + w + length g)
    end.

(** After the opening bracket of [\[(.*?)\]\(.*?\)]: the group and the
    number of characters up to the closing parenthesis. *)
Fixpoint link_body (s : text) : option (text * nat) :=
  match s with
  | [] => None
  | c :: r =>
      let here :=
        if ch "]"%char c
        then match r with
             | c' :: r' => if ch "("%char c' then lazy_until (lit ")") r' else None
             | [] => None
             end
        else None in
      match here with
      | Some target => Some ([], 2 + length target + 1)
      | None =>
          if notnl c
          then match link_body r with
               | Some (g, n) => Some (c :: g, S n)
               | None => None
               end
          else None
      end
  end.

(** [\[(.*?)\]\(.*?\)], replaced by the group. *)
Definition link : matcher :=
  fun _ s =>
    match s with
    | c :: r =>
        if ch "["%char c
        then match link_body r with
             | Some (g, n) => Some (g, S n)
             | None => None
             end
        else None
    | [] => None
    end.

(** A character class [[...]], replaced by the empty string. *)
Definition one_of (cls : ascii -> bool) (repl : text) : matcher :=
  fun _ s =>
    match s with
    | c :: _ => if cls c then Some (repl, 1) else None
    | [] => None
    end.

(** [^] under [re.MULTILINE]. *)
Definition at_line_start (prev : option ascii) : bool :=
  match prev with
  | None => true
  | Some p => char_eqb p nl
  end.

(** [^\s*[\d]+\.\s*] under [re.MULTILINE], replaced by the empty
    string. *)
Definition numbered : matcher :=
  fun prev s =>
    if at_line_start prev
    then
      let w := span isspace s in
      let s1 := skipn w s in
      match span isdigit s1 with
      | O => None
      | S _ as d =>
          match skipn d s1 with
          | c :: s2 =>
              if ch "."%char c then Some ([], w + d + 1 + span isspace s2) else None
          | [] => None
          end
      end
    else None.

(** [^\s*[...]\s*] under [re.MULTILINE] for a character class, replaced
    by the empty string. *)
Definition bullet (cls : ascii -> bool) : matcher :=
  fun prev s =>
    if at_line_start prev
    then
      let w := span isspace s in
      match skipn w s with
      | c :: s2 => if cls c then Some ([], w + 1 + span isspace s2) else None
      | [] => None
      end
    else None.

Definition sentence_end (c : ascii) : bool :=
  ch "."%char c || ch "!"%char c || ch "?"%char c.

(** [(?<=[^\.\!\?])\n], replaced by [repl]. *)
Definition unended_line (repl : text) : matcher :=
  fun prev s =>
    match prev, s with
    | Some p, c :: _ =>
        if negb (sentence_end p) && char_eqb c nl then Some (repl, 1) else None
    | _, _ => None
    end.

(** [p{least,}] for a character class, replaced by [repl]. *)
Definition run_of (cls : ascii -> bool) (least : nat) (repl : text) : matcher :=
  fun _ s =>
    let n := span cls s in
    if (least <=? n) && (1 <=? n) then Some (repl, n) else None.

(** [\b]: a word character on one side only. *)
Definition opt_isword (c : option ascii) : bool :=
  match c with Some c => isword c | None => false end.

Definition word_boundary (before after : option ascii) : bool :=
  xorb (opt_isword before) (opt_isword after).

(** A literal under [re.IGNORECASE]. *)
Fixpoint startswith_ci (p s : text) : bool :=
  match p, s with
  | [], _ => true
  | a :: p', b :: s' =>
      char_eqb (lower_char a) (lower_char b) && startswith_ci p' s'
  | _ :: _, [] => false
  end.

(** [\bword\b] under [re.IGNORECASE] for a non-empty literal [word],
    replaced by [repl]. *)
Definition whole_word (word repl : text) : matcher :=
  fun prev s =>
    let n := length word in
    if word_boundary prev (hd_error s)
       && startswith_ci word s
       && word_boundary (hd_error (skipn (n - 1) s)) (hd_error (skipn n s))
    then Some (repl, n)
    else None.

End Re.

(** ** Text sanitiser (generalUtils.py, lines 301-345) *)

(** [[#*_>`\-...]]; the last member of the class in the source, the
    bullet U+2022, lies outside the character range of the model. *)
Definition special_char (c : ascii) : bool :=
  Re.ch "#"%char c || Re.ch "*"%char c || Re.ch "_"%char c || Re.ch ">"%char c || Re.ch "`"%char c
  || Re.ch "-"%char c.

(** [[...\-]] of the bullet-point rule, with the same remark. *)
Definition bullet_char (c : ascii) : bool := Re.ch "-"%char c.

Definition abbreviations : list (text * text) :=
  map (fun p => (lit (fst p), lit (snd p)))
    [("API", "A P I"); ("URL", "U R L"); ("HTML", "H T M L");
     ("CSS", "C S S"); ("JS", "JavaScript"); ("AI", "A I");
     ("ML", "Machine Learning"); ("NLP", "Natural Language Processing");
     ("PDF", "P D F"); ("CEO", "C E O"); ("CTO", "C T O");
     ("USA", "United States"); ("UK", "United Kingdom")]%string.

(** Lines 309-318: the markup is removed. *)
Definition remove_markup (t : text) : text :=
  let t := Re.sub (Re.enclosed (lit "**") (lit "**")) t in
  let t := Re.sub (Re.enclosed (lit "*") (lit "*")) t in
  let t := Re.sub Re.header t in
  let t := Re.sub (Re.enclosed (lit "`") (lit "`")) t in
  let t := Re.sub Re.link t in
  let t := Re.sub (Re.one_of special_char []) t in
  let t := Re.sub Re.numbered t in
  let t := Re.sub (Re.bullet bullet_char) t in
  t.

(** Lines 321-323: the sentence structure is fixed. *)
Definition fix_sentences (t : text) : text :=
  let t := Re.sub (Re.unended_line (lit ". ")) t in
  let t := Re.sub (Re.run_of (Re.ch nl) 1 (lit " ")) t in
  let t := Re.sub (Re.run_of isspace 2 (lit " ")) t in
  t.

(** Lines 342-343: the abbreviations are expanded, in the order of the
    dictionary. *)
Definition expand_abbreviations (t : text) : text :=
  fold_left (fun t p => Re.sub (Re.whole_word (fst p) (snd p)) t) abbreviations t.

Definition clean_text_for_audio (t : text) : text :=
  match t with
  | [] => []
  | _ => strip (expand_abbreviations (fix_sentences (remove_markup t)))
  end.

(** ** Narration hand-off (generalUtils.py, lines 347-360)

    The text that [generate_audio] passes to the speech synthesiser, or
    the exception raised before it is called (which the handler of
    [generate_audio] answers by narrating a fixed apology). *)

Definition continuation_notice : text :=
  lit "... Summary continues in text format.".

Definition generate_audio_text (summary_text : text) : Exn + text :=
  match strip summary_text with
  | [] => inl (mkExn ValueError (lit "No text provided for audio generation"))
  | _ =>
      let cleaned_text := clean_text_for_audio summary_text in
      if 5000 <? length cleaned_text
      then inr (firstn 4800 cleaned_text ++ continuation_notice)
      else inr cleaned_text
  end.

Unset Implicit Arguments.

(** ** Notions for the properties of the sanitiser *)

(** The 256 characters of the model. *)
Definition all_chars : list ascii := map ascii_of_nat (seq 0 256).

Definition isletter (c : ascii) : bool := isupper_ascii c || islower_ascii c.

(** Already-clean plain text.  It has no markup, that is nothing the
    markup rules of lines 309-318 look for: none of the special
    characters, no opening bracket of a link and no list number at its
    start.  Its white space is single spaces only.  It ends in sentence
    punctuation. *)
Definition markup_char (c : ascii) : bool := special_char c || Re.ch "["%char c.

Definition plain_char (c : ascii) : bool := negb (markup_char c).

(** Every white-space character is a space and no two stand side by
    side; [prev_space] tells whether a space stands just before. *)
Fixpoint tidy_from (prev_space : bool) (s : text) : bool :=
  match s with
  | [] => true
  | c :: r =>
      if isspace c
      then char_eqb c " "%char && negb prev_space && tidy_from true r
      else tidy_from false r
  end.

(** The numbered-list rule matches at the start of the text. *)
Definition is_numbered (s : text) : bool :=
  match Re.numbered None s with Some _ => true | None => false end.

Fixpoint ends_sentence (s : text) : bool :=
  match s with
  | [] => false
  | [c] => Re.sentence_end c
  | _ :: r => ends_sentence r
  end.

Definition clean_plain_text (x : text) : bool :=
  forallb plain_char x && tidy_from false x && negb (is_numbered x)
  && ends_sentence x.

Definition sample_clean_text : text := lit "The API of the ML team is ready.".

(** A text that starts with what the numbered-list rule takes for a list
    number. *)
Definition version_text : text := lit "1.2.3 is out.".

(** A text that ends in a character outside the words is a sequence of
    items: a word, possibly empty, and the character that ends it. *)
Abbreviation item := (text * ascii)%type.

Definition flat (its : list item) : text :=
  flat_map (fun it => fst it ++ [snd it]) its.

(** The items of [s] followed by the character [c]. *)
Fixpoint items_end (c : ascii) (s : text) : list item :=
  match s with
  | [] => [([], c)]
  | d :: r =>
      if isword d
      then match items_end c r with
           | (w, e) :: its => (d :: w, e) :: its
           | [] => []
           end
      else ([], d) :: items_end c r
  end.

Definition valid_item (it : item) : bool :=
  forallb isword (fst it) && negb (isword (snd it)).

(** The word [w] is the abbreviation [a], whatever the case. *)
Definition eq_ci (a w : text) : bool :=
  (length a =? length w) && Re.startswith_ci a w.

(** One abbreviation rule on an item, and the rules of a list in turn on
    a sequence of items. *)
Definition expand_item (a r : text) (it : item) : list item :=
  if eq_ci a (fst it) then items_end (snd it) r else [it].

Definition run_passes (l : list (text * text)) (its : list item) : list item :=
  fold_left (fun its p => flat_map (expand_item (fst p) (snd p)) its) l its.

Definition letters (a : text) : bool :=
  match a with [] => false | _ => forallb isletter a end.


(** Matching the literal [a] and then standing at a word boundary;
    [last] is the character before the position. *)
Fixpoint ends_at (a : text) (last : option ascii) (s : text) : bool :=
  match a with
  | [] => Re.word_boundary last (hd_error s)
  | a0 :: a' =>
      match s with
      | [] => false
      | d :: s' =>
          char_eqb (lower_char a0) (lower_char d) && ends_at a' (Some d) s'
      end
  end.

(** No word of the items is an abbreviation of [l]. *)
Definition matches_any (l : list (text * text)) (w : text) : bool :=
  existsb (fun p => eq_ci (fst p) w) l.

Definition inert (l : list (text * text)) (its : list item) : bool :=
  forallb (fun it => negb (matches_any l (fst it))) its.




(** * Further definitions: the chunker, the retry loop and ytUtils.py *)

(** The chunk size and overlap of a content type (generalUtils.py, lines
    46-54). *)
Definition chunking_config (content_type : ContentType) : nat * nat :=
  match content_type with
  | technical => (MIN_CHUNK_SIZE, 200)
  | narrative => (MAX_CHUNK_SIZE, CHUNK_OVERLAP)
  | general => (1200, 250)
  end.

(** A chunk the filter of line 66 keeps. *)
Definition long_chunk (doc : Document) : bool :=
  50 <? length (strip (page_content doc)).

Definition failing_splitter (e : Exn)
  : nat -> nat -> list Document -> Exn + list Document :=
  fun _ _ _ => inl e.

Definition splitter_error : Exn := mkExn OtherException (lit "cannot split").

(** A model that raises on its first two invocations and answers from
    the third on; its world counts the invocations. *)
Definition flaky_llm (e : Exn) (answer : text)
  : text -> nat -> (Exn + text) * nat :=
  fun _ n => if n <? 2 then (inl e, S n) else (inr answer, S n).

(** Fifty words with a structure marker. *)
Definition structured_answer : text := concat (repeat (lit "key ") 50).

(** 6413 one-letter words: 12825 characters. *)
Definition dense_text : text :=
  lit "a" ++ concat (repeat (lit " a") 6412).

(** The attempt of [summarize_chain] on the sample documents with the
    flaky model, and the states after its first and second failure. *)
Definition flaky_attempt : M nat text :=
  attempt_body (flaky_llm rate_limited structured_answer) identity_splitter
    paragraph_break (filter nonblank sample_docs)
    (detect_content_type (filter nonblank sample_docs))
    (estimate_tokens
       (join (lit " ") (map page_content (filter nonblank sample_docs))))
    (create_enhanced_prompts (detect_content_type (filter nonblank sample_docs))).

Definition flaky_after_one : State nat :=
  snd (logger_warning (attempt_failed 0 rate_limited)
         (snd (flaky_attempt (loop_start sample_docs (mkState 0 []))))).

Definition flaky_after_two : State nat :=
  snd (logger_warning (attempt_failed (0 + 1) rate_limited)
         (snd (flaky_attempt flaky_after_one))).

(** A character the sanitiser never lets through: a special character or
    a line feed. *)
Definition unspeakable (c : ascii) : bool := special_char c || char_eqb c nl.

Definition speakable (c : ascii) : bool := negb (unspeakable c).

(** ** YouTube URLs (ytUtils.py, lines 9-32 and 99-120) *)

(** [re.search]: the leftmost position at which the pattern matches;
    [m] gives the group of a match at the start of a text. *)
Fixpoint search (m : text -> option text) (s : text) : option text :=
  match m s with
  | Some g => Some g
  | None =>
      match s with
      | [] => None
      | _ :: r => search m r
      end
  end.

(** The class of the group of both patterns: any character but the
    ampersand, the line feed, the question mark and the hash. *)
Definition id_char (c : ascii) : bool :=
  negb (Re.ch "&"%char c || Re.ch nl c || Re.ch "?"%char c || Re.ch "#"%char c).

(** The group: a greedy run of one or more such characters. *)
Definition id_group (s : text) : option text :=
  match Re.span id_char s with
  | O => None
  | S _ as n => Some (firstn n s)
  end.

(** The alternatives of the first pattern, in order. *)
Definition url_prefixes : list text :=
  map lit ["youtube.com/watch?v="; "youtu.be/"; "youtube.com/embed/";
           "youtube.com/v/"; "youtube.com/live/"]%string.

Fixpoint first_alternative (prefixes : list text) (s : text) : option text :=
  match prefixes with
  | [] => None
  | p :: rest =>
      match (if startswith p s then id_group (skipn (length p) s) else None) with
      | Some g => Some g
      | None => first_alternative rest s
      end
  end.

(** The first pattern at a position. *)
Definition direct_pattern (s : text) : option text :=
  first_alternative url_prefixes s.

(** The greedy [.*] of the second pattern, then [v=] and the group: the
    last [v=] of the line that a group follows. *)
Fixpoint last_v (s : text) : option text :=
  match s with
  | [] => None
  | c :: r =>
      if Re.notnl c
      then match last_v r with
           | Some g => Some g
           | None =>
               if startswith (lit "v=") s then id_group (skipn 2 s) else None
           end
      else None
  end.

(** The second pattern at a position. *)
Definition query_pattern (s : text) : option text :=
  if startswith (lit "youtube.com/watch?") s
  then last_v (skipn (length (lit "youtube.com/watch?")) s)
  else None.

(** The pattern of line 25: an ampersand or a question mark and the rest
    of the line, replaced by the empty string. *)
Definition query_tail : Re.matcher :=
  fun _ s =>
    match s with
    | c :: r =>
        if Re.ch "&"%char c || Re.ch "?"%char c
        then Some ([], 1 + Re.span Re.notnl r)
        else None
    | [] => None
    end.

Definition extract_youtube_video_id (url : text) : option text :=
  let url := strip url in
  match search direct_pattern url with
  | Some video_id => Some (Re.sub query_tail video_id)
  | None =>
      match search query_pattern url with
      | Some video_id => Some (Re.sub query_tail video_id)
      | None => None
      end
  end.

(** [re.search] of a literal under [re.IGNORECASE]. *)
Fixpoint contains_ci (p s : text) : bool :=
  Re.startswith_ci p s ||
  match s with
  | [] => false
  | _ :: r => contains_ci p r
  end.

(** The class of the characters of a video identifier. *)
Definition video_id_char (c : ascii) : bool :=
  islower_ascii c || isupper_ascii c || isdigit c
  || Re.ch "_"%char c || Re.ch "-"%char c.

(** [re.match] of eleven such characters up to the end of the text, or
    up to a line feed that ends it. *)
Definition well_formed_id (video_id : text) : bool :=
  (length (firstn 11 video_id) =? 11)
  && forallb video_id_char (firstn 11 video_id)
  && match skipn 11 video_id with
     | [] => true
     | [c] => Re.ch nl c
     | _ => false
     end.

Definition validate_youtube_url (url : text) : bool * text :=
  match url with
  | [] => (false, lit "URL is required")
  | _ =>
      let url := strip url in
      if negb (contains_ci (lit "youtube.com") url || contains_ci (lit "youtu.be") url)
      then (false, lit "URL must be from a YouTube domain.")
      else
        match extract_youtube_video_id url with
        | None | Some [] => (false, lit "Could not extract video ID from URL")
        | Some video_id =>
            if negb (well_formed_id video_id)
            then (false, lit "Invalid video ID format")
            else (true, lit "Valid YouTube URL")
        end
  end.

Definition sample_url : text :=
  lit "https://www.youtube.com/watch?v=dQw4w9WgXcQ&t=10".

(** ** Transcript cleaning (ytUtils.py, lines 84-97) *)

(** An opening character, a lazy run up to the closing character, and
    the closing character, replaced by the empty string. *)
Definition bracketed (open close : ascii) : Re.matcher :=
  fun _ s =>
    match s with
    | c :: r =>
        if Re.ch open c
        then match Re.lazy_until [close] r with
             | Some g => Some ([], 1 + length g + 1)
             | None => None
             end
        else None
    | [] => None
    end.

Definition comma_or_end (c : ascii) : bool :=
  Re.ch "."%char c || Re.ch ","%char c || Re.ch "!"%char c || Re.ch "?"%char c.

(** A word character, white space and a punctuation mark, replaced by
    the character and the mark. *)
Definition space_before_mark : Re.matcher :=
  fun _ s =>
    match s with
    | c :: r =>
        if isword c
        then match Re.span isspace r with
             | O => None
             | S _ as n =>
                 match skipn n r with
                 | p :: _ =>
                     if comma_or_end p then Some ([c; p], 1 + n + 1) else None
                 | [] => None
                 end
             end
        else None
    | [] => None
    end.

(** The end of a sentence, white space if any and a small letter,
    replaced by the mark, a space and the letter. *)
Definition sentence_start : Re.matcher :=
  fun _ s =>
    match s with
    | p :: r =>
        if Re.sentence_end p
        then let n := Re.span isspace r in
             match skipn n r with
             | l :: _ =>
                 if islower_ascii l
                 then Some ([p; " "%char; l], 1 + n + 1)
                 else None
             | [] => None
             end
        else None
    | [] => None
    end.

Definition clean_transcript_text (t : text) : text :=
  match t with
  | [] => []
  | _ =>
      let t := Re.sub (Re.run_of isspace 1 (lit " ")) t in
      let t := Re.sub (bracketed "[" "]") t in
      let t := Re.sub (bracketed "(" ")") t in
      let t := Re.sub space_before_mark t in
      let t := Re.sub sentence_start t in
      strip t
  end.

(** ** Transcript loader (ytUtils.py, lines 34-82) *)

Section Transcript.

(** [YouTubeTranscriptApi.get_transcript(video_id, languages=...)] and
    [YouTubeTranscriptApi.list_transcripts(video_id)
    .find_generated_transcript(...).fetch()] of the transcript library:
    the texts of the entries, or an exception. *)
Variable get_transcript : text -> Exn + list text.
Variable fetch_generated_transcript : text -> Exn + list text.

(** Lines 44-72: the text of the transcript. *)
Definition fetch_transcript_text (video_id : text) : Exn + text :=
  match get_transcript video_id with
  | inr transcript => inr (join [nl] transcript)
  | inl e =>
      let error_message := exn_msg e in
      if contains (lit "No transcript found") error_message
         || contains (lit "Could not retrieve a transcript") error_message
      then
        match fetch_generated_transcript video_id with
        | inr transcript => inr (join [nl] transcript)
        | inl _ =>
            inl (mkExn RuntimeError
                   (lit "No transcript available for this video (ID: " ++ video_id
                    ++ lit "). "
                    ++ lit "This could mean the video has no captions, is private, or has been removed."))
        end
      else if contains (lit "Video is unavailable") error_message
      then
        inl (mkExn RuntimeError
               (lit "Video is unavailable (ID: " ++ video_id ++ lit "). "
                ++ lit "This could mean the video is private, deleted, or region-restricted."))
      else if contains (lit "TooManyRequests") error_message
      then
        inl (mkExn RuntimeError
               (lit "YouTube is rate-limiting requests. Please try again in a few minutes."))
      else
        inl (mkExn RuntimeError
               (lit "Failed to fetch transcript for video " ++ video_id ++ lit ". "
                ++ lit "An unexpected error occurred: " ++ exn_msg e))
  end.

Definition transcript_too_short : Exn :=
  mkExn RuntimeError
    (lit "Transcript is too short or empty. This video might not have sufficient spoken content.").

Definition get_transcript_as_document (url : text) : Exn + list Document :=
  match extract_youtube_video_id url with
  | None | Some [] =>
      inl (mkExn ValueError
             (lit "Invalid YouTube URL format. Please provide a valid YouTube video URL."))
  | Some video_id =>
      match fetch_transcript_text video_id with
      | inl e => inl e
      | inr transcript_text =>
          let transcript_text :=
            match transcript_text with
            | [] => transcript_text
            | _ => clean_transcript_text transcript_text
            end in
          match transcript_text with
          | [] => inl transcript_too_short
          | _ =>
              if length (strip transcript_text) <? 50
              then inl transcript_too_short
              else
                inr [mkDocument transcript_text
                       [(lit "source", url);
                        (lit "title", lit "YouTube Video Transcript")]]
          end
      end
  end.

End Transcript.

Definition sample_transcript : list text :=
  [lit "[Music]"; lit "hello   everyone (applause) welcome back ,";
   lit "today we look at proofs .and at programs"; lit "thanks for watching !"].

Definition no_captions : Exn :=
  mkExn OtherException (lit "No transcript found for this video").

(** A character that is no white space, or the space. *)
Definition plain_space (c : ascii) : bool :=
  negb (isspace c) || char_eqb c " "%char.

(** No opening character [o] with a closing character [c] after it. *)
Fixpoint pair_free (o c : ascii) (s : text) : bool :=
  match s with
  | [] => true
  | x :: r =>
      (negb (Re.ch o x) || forallb (fun y => negb (Re.ch c y)) r)
      && pair_free o c r
  end.

(** A transcript library that has captions for every video, and one that
    has only generated captions. *)
Definition captions (_ : text) : Exn + list text := inr sample_transcript.

Definition no_manual_captions (_ : text) : Exn + list text := inl no_captions.

Definition transcript_metadata (url : text) : list (text * text) :=
  [(lit "source", url); (lit "title", lit "YouTube Video Transcript")].

(** The test of line 110: one of the two domains, in any case. *)
Definition names_youtube (url : text) : bool :=
  contains_ci (lit "youtube.com") url || contains_ci (lit "youtu.be") url.

Definition sample_transcript_docs : list Document :=
  [mkDocument (clean_transcript_text (join [nl] sample_transcript))
     (transcript_metadata sample_url)].

Definition no_transcript_available : Exn :=
  mkExn RuntimeError
    (lit "No transcript available for this video (ID: dQw4w9WgXcQ). This could mean the video has no captions, is private, or has been removed.").

(** A template with one placeholder [{text}] and no other brace.  The
    test counts braces only, which the encoding of the bullet character
    does not contain. *)
Definition single_placeholder (template : text) : bool :=
  (count (lit "{text}") template =? 1)
  && (count (lit "{") template =? 1)
  && (count (lit "}") template =? 1).

(** Two documents whose contents differ in case only, before a third
    and a fourth one; the same with another fourth document. *)
Definition mixed_case_docs : list Document :=
  [mkDocument (lit "The ALGORITHM calls a Function of the Class.") [];
   mkDocument (lit "An API over the DATABASE, in Python.") [];
   mkDocument (lit "The story of a character.") [];
   mkDocument (lit "plot chapter scene dialogue theme") []].

Definition lower_case_docs : list Document :=
  [mkDocument (lit "the algorithm calls a function of the class.") [];
   mkDocument (lit "an api over the database, in python.") [(lit "page", lit "2")];
   mkDocument (lit "the story of a character.") []].

(** ** The rounds of the strategy

    What the specification says of the strategy of the orchestrator,
    written as a relation on the invocations of the model: a round
    starts in a world of the model, sends prompts, and ends in a world
    with the completion or the exception of the chain. *)

Section Strategy.

Variable World : Type.
Variable llm : text -> World -> (Exn + text) * World.
Variable split_documents : nat -> nat -> list Document -> Exn + list Document.
Variable document_separator : text.

(** The model answers the prompts in turn: from the world [w] on each
    prompt gets a completion, and the world [w'] is reached. *)
Inductive answered_in_turn : list text -> World -> list text -> World -> Prop :=
| answered_none (w : World) : answered_in_turn [] w [] w
| answered_next (p : text) (ps : list text) (w : World) (a : text)
    (answers : list text) (w' : World) :
    fst (llm p w) = inr a ->
    answered_in_turn ps (snd (llm p w)) answers w' ->
    answered_in_turn (p :: ps) w (a :: answers) w'.

(** The single pass: one invocation, whose outcome is that of the
    round. *)
Definition single_pass_round (prompt : text) (w : World) (calls : list text)
    (out : Exn + text) (w' : World) : Prop :=
  calls = [prompt] /\ llm prompt w = (out, w').

(** Map-reduce: every map prompt is answered in turn, then the combine
    prompt over the answers is sent once, and its outcome is that of the
    round; or the model raises on the map prompt of index [k], after it
    has answered the ones before, and the round ends there. *)
Definition map_reduce_round (map_prompts : list text)
    (combine : list text -> text) (w : World) (calls : list text)
    (out : Exn + text) (w' : World) : Prop :=
  (exists summaries w1,
     answered_in_turn map_prompts w summaries w1
     /\ calls = map_prompts ++ [combine summaries]
     /\ llm (combine summaries) w1 = (out, w'))
  \/ (exists k answers w1 e,
        k < length map_prompts
        /\ answered_in_turn (firstn k map_prompts) w answers w1
        /\ llm (nth k map_prompts []) w1 = (inl e, w')
        /\ calls = firstn (S k) map_prompts
        /\ out = inl e).

(** A round on the documents [docs]: below 6000 estimated tokens the
    single pass over the joined contents, else map-reduce over the chunks
    that [chunk_documents] returns. *)
Definition strategy_round (docs : list Document) (w : World)
    (calls : list text) (out : Exn + text) (w' : World) : Prop :=
  if (estimate_tokens (join (lit " ") (map page_content docs)) <? 6000)%Z
  then
    single_pass_round
      (format_prompt
         (stuff_prompt (create_enhanced_prompts (detect_content_type docs)))
         (join document_separator (map page_content docs)))
      w calls out w'
  else
    exists chunks,
      (forall st0 : State World,
         fst (chunk_documents split_documents docs (detect_content_type docs) st0)
         = inr chunks)
      /\ map_reduce_round
           (map (fun doc =>
                   format_prompt
                     (map_prompt (create_enhanced_prompts (detect_content_type docs)))
                     (page_content doc)) chunks)
           (fun summaries =>
              format_prompt
                (combine_prompt (create_enhanced_prompts (detect_content_type docs)))
                (join document_separator summaries))
           w calls out w'.

(** Rounds in a row, each with the prompts it sent and its outcome: a
    round starts in the world the one before has reached. *)
Inductive rounds_from (docs : list Document)
  : World -> list (list text * (Exn + text)) -> World -> Prop :=
| rounds_none (w : World) : rounds_from docs w [] w
| rounds_next (w : World) (calls : list text) (out : Exn + text) (w1 : World)
    (rest : list (list text * (Exn + text))) (w2 : World) :
    strategy_round docs w calls out w1 ->
    rounds_from docs w1 rest w2 ->
    rounds_from docs w ((calls, out) :: rest) w2.

End Strategy.

(** A document estimated at 6000 tokens, and a model that numbers its
    answers; its world counts the invocations. *)
Definition dense_docs : list Document := [mkDocument dense_text []].

Definition counting_llm : text -> nat -> (Exn + text) * nat :=
  fun _ n => (inr (structured_answer ++ str_of_Z (Z.of_nat n)), S n).

(** ** The clean plain text of the claim, as it is worded

    No markup character, single spaces only, sentence punctuation at the
    end; nothing is said of a list number at the start. *)
Definition plain_text_as_worded (x : text) : bool :=
  forallb plain_char x && tidy_from false x && ends_sentence x.

(** ** Properties of the token estimator *)

Section TokenEstimator.

Local Open Scope Z_scope.

(** The rational expression of the estimator, over a common
    denominator. *)
Lemma estimate_formula_Qeq (w c : Z) :
  ((inject_Z w * (13 # 10) + inject_Z c / (35 # 10)) / 2 ==
   inject_Z (91 * w + 20 * c) / inject_Z 140)%Q.
Proof.
  rewrite inject_Z_plus, !inject_Z_mult.
  change (inject_Z 91) with (91 # 1)%Q. change (inject_Z 20) with (20 # 1)%Q.
  change (inject_Z 140) with (140 # 1)%Q.
  field.
Qed.

Lemma estimate_formula_floor (w c : Z) :
  Qfloor ((inject_Z w * (13 # 10) + inject_Z c / (35 # 10)) / 2)%Q
  = (91 * w + 20 * c) / 140.
Proof.
  rewrite (Qfloor_comp _ _ (estimate_formula_Qeq w c)).
  symmetry. apply Zdiv_Qdiv.
Qed.

Lemma estimate_formula_nonneg (w c : Z) :
  0 <= w -> 0 <= c ->
  (0 <= (inject_Z w * (13 # 10) + inject_Z c / (35 # 10)) / 2)%Q.
Proof.
  intros Hw Hc. rewrite estimate_formula_Qeq.
  assert (Hn : 0 <= 91 * w + 20 * c) by lia.
  revert Hn. generalize (91 * w + 20 * c). intros n Hn.
  unfold Qle, Qdiv, Qmult, Qinv, inject_Z; simpl. lia.
Qed.

Lemma int_of_Q_nonneg (q : Q) : (0 <= q)%Q -> int_of_Q q = Qfloor q.
Proof.
  intros H. unfold int_of_Q.
  destruct (Qle_bool 0 q) eqn:E; [reflexivity|].
  apply Qle_bool_iff in H. congruence.
Qed.

Lemma estimate_tokens_closed (t : text) :
  estimate_tokens t
  = (91 * Z.of_nat (length (split t)) + 20 * Z.of_nat (length t)) / 140.
Proof.
  destruct t as [|a r]; [reflexivity|].
  unfold estimate_tokens.
  rewrite int_of_Q_nonneg by (apply estimate_formula_nonneg; lia).
  apply estimate_formula_floor.
Qed.

(** Appending characters never removes a word. *)
Lemma split_from_nonempty (cur s : text) :
  cur <> [] -> (1 <= length (split_from cur s))%nat.
Proof.
  revert cur. induction s as [|c r IH]; intros cur Hc; simpl.
  - destruct cur; [congruence|simpl; lia].
  - destruct (isspace c).
    + destruct cur; [congruence|simpl; lia].
    + apply IH. discriminate.
Qed.

Lemma split_from_app_length (cur t s : text) :
  (length (split_from cur t) <= length (split_from cur (t ++ s)))%nat.
Proof.
  revert cur. induction t as [|c r IH]; intros cur; simpl.
  - destruct cur as [|a cur']; simpl; [lia|].
    apply split_from_nonempty. discriminate.
  - destruct (isspace c).
    + destruct cur; simpl; [apply IH|]. apply le_n_S, IH.
    + apply IH.
Qed.

End TokenEstimator.

(** C7: for every text the token estimator returns
    floor((word_count * 1.3 + char_count / 3.5) / 2), with word_count the
    number of whitespace-separated words and char_count the number of
    characters; the empty text gives 0 and the result is never negative. *)
Theorem estimate_tokens_formula (t : text) :
  estimate_tokens t = estimate_tokens_spec t
  /\ estimate_tokens [] = 0%Z
  /\ (0 <= estimate_tokens t)%Z.
Proof.
  split; [|split].
  - rewrite estimate_tokens_closed. unfold estimate_tokens_spec.
    symmetry. apply estimate_formula_floor.
  - reflexivity.
  - rewrite estimate_tokens_closed. apply Z.div_pos; lia.
Qed.

(** C8: the token estimator is monotonic under extension: appending
    characters to a text never lowers its estimate. *)
Theorem estimate_tokens_monotone (t s : text) :
  (estimate_tokens t <= estimate_tokens (t ++ s))%Z.
Proof.
  rewrite !estimate_tokens_closed.
  apply Z.div_le_mono; [lia|].
  pose proof (split_from_app_length [] t s) as Hw.
  fold (split t) in Hw. fold (split (t ++ s)) in Hw.
  rewrite length_app. lia.
Qed.

(** ** Properties of the content classifier *)

Lemma indicator_score_length (indicators : list text) (t : text) :
  indicator_score indicators t
  = length (filter (fun indicator => contains indicator t) indicators).
Proof.
  unfold indicator_score.
  induction (filter _ indicators) as [|a l IH]; simpl; [reflexivity|].
  now rewrite IH.
Qed.

Lemma indicator_score_bound (indicators : list text) (t : text) :
  indicator_score indicators t <= length indicators.
Proof.
  rewrite indicator_score_length. apply filter_length_le.
Qed.

Lemma scores_of_no_document :
  technical_score [] = 0 /\ narrative_score [] = 0.
Proof. split; reflexivity. Qed.

(** C3, as stated, fails: the keyword [algorithm] occurs four times in
    the sampled text and no narrative keyword occurs, so the classifier
    as the claim words it answers [technical]; the code answers
    [general]. *)
Lemma repeated_keyword_is_general :
  occurrence_count technical_indicators (sample_text repeated_keyword_docs) = 4
  /\ occurrence_count narrative_indicators (sample_text repeated_keyword_docs) = 0
  /\ detect_content_type_spec repeated_keyword_docs = technical
  /\ detect_content_type repeated_keyword_docs = general.
Proof. repeat split; vm_compute; reflexivity. Qed.

(** C3, amended: the classifier joins the page contents of the first
    three documents with single spaces, lower-cases the result and scores
    each keyword set by the number of its keywords that occur in it at
    least once (at most 19 and 11).  It answers [technical] iff the
    technical score exceeds the narrative score and 3, [narrative] iff
    the narrative score exceeds the technical score and 2, and [general]
    otherwise. *)
Theorem detect_content_type_by_presence (docs : list Document) :
  let text_lower := lower (join (lit " ") (map page_content (firstn 3 docs))) in
  let t := technical_score docs in
  let n := narrative_score docs in
  t = length (filter (fun k => contains k text_lower) technical_indicators)
  /\ n = length (filter (fun k => contains k text_lower) narrative_indicators)
  /\ t <= 19 /\ n <= 11
  /\ (detect_content_type docs = technical <-> n < t /\ 3 < t)
  /\ (detect_content_type docs = narrative <-> t < n /\ 2 < n)
  /\ (detect_content_type docs = general <->
      ~ (n < t /\ 3 < t) /\ ~ (t < n /\ 2 < n)).
Proof.
  intros text_lower t n.
  split; [apply indicator_score_length|].
  split; [apply indicator_score_length|].
  split; [apply (indicator_score_bound technical_indicators)|].
  split; [apply (indicator_score_bound narrative_indicators)|].
  destruct docs as [|d ds].
  - destruct scores_of_no_document as [Ht Hn].
    subst t n. rewrite Ht, Hn. simpl.
    repeat split; intros; try discriminate; lia.
  - unfold detect_content_type. fold t n.
    destruct (Nat.ltb_spec n t), (Nat.ltb_spec 3 t),
      (Nat.ltb_spec t n), (Nat.ltb_spec 2 n); simpl;
      repeat split; intros; try discriminate; try lia; try reflexivity.
Qed.

(** ** Properties of [strip] *)

Lemma lstrip_idem (s : text) : lstrip (lstrip s) = lstrip s.
Proof.
  induction s as [|c r IH]; simpl; [reflexivity|].
  destruct (isspace c) eqn:E; [exact IH|]. simpl. now rewrite E.
Qed.

Lemma lstrip_head (s : text) :
  match lstrip s with [] => True | c :: _ => isspace c = false end.
Proof.
  induction s as [|c r IH]; simpl; [exact I|].
  destruct (isspace c) eqn:E; [exact IH|exact E].
Qed.

Lemma rstrip_cons (c : ascii) (r : text) :
  rstrip (c :: r)
  = match rstrip r with
    | [] => if isspace c then [] else [c]
    | _ => c :: rstrip r
    end.
Proof. simpl. destruct (rstrip r); reflexivity. Qed.

Lemma rstrip_idem (s : text) : rstrip (rstrip s) = rstrip s.
Proof.
  induction s as [|c r IH]; [reflexivity|].
  rewrite rstrip_cons. destruct (rstrip r) as [|a l] eqn:E.
  - destruct (isspace c) eqn:Ec; [reflexivity|]. simpl. now rewrite Ec.
  - rewrite rstrip_cons, IH. reflexivity.
Qed.

Lemma lstrip_rstrip_fixed (s : text) :
  lstrip s = s -> lstrip (rstrip s) = rstrip s.
Proof.
  destruct s as [|c r]; [reflexivity|].
  intros H. pose proof (lstrip_head (c :: r)) as Hh. rewrite H in Hh.
  rewrite rstrip_cons. destruct (rstrip r); rewrite ?Hh; simpl; rewrite ?Hh; reflexivity.
Qed.

Lemma strip_idem (s : text) : strip (strip s) = strip s.
Proof.
  unfold strip.
  rewrite (lstrip_rstrip_fixed (lstrip s) (lstrip_idem s)).
  apply rstrip_idem.
Qed.

(** ** Properties of the orchestrator *)

Section PipelineFacts.

Variable World : Type.
Variable llm : text -> World -> (Exn + text) * World.
Variable split_documents : nat -> nat -> list Document -> Exn + list Document.
Variable document_separator : text.

Local Abbreviation St := (State World).
Local Abbreviation call := (invoke llm).
Local Abbreviation chunk := (chunk_documents (World := World) split_documents).
Local Abbreviation chain := (run_chain llm split_documents document_separator).
Local Abbreviation attempt := (attempt_body llm split_documents document_separator).
Local Abbreviation loop := (retry_loop llm split_documents document_separator).
Local Abbreviation summarize := (summarize_chain llm split_documents document_separator).
Local Abbreviation raised := (raised_by_llm llm).

Lemma llm_calls_app (a b : list Event) :
  llm_calls (a ++ b) = llm_calls a ++ llm_calls b.
Proof. unfold llm_calls. apply flat_map_app. Qed.

Lemma emit_run (e : Event) (st : St) :
  emit e st = (inr tt, mkState (world st) (trace st ++ [e])).
Proof. reflexivity. Qed.

Lemma invoke_run (prompt : text) (st : St) :
  call prompt st
  = (fst (llm prompt (world st)),
     mkState (snd (llm prompt (world st))) (trace st ++ [LLMCall prompt])).
Proof. unfold invoke. destruct (llm prompt (world st)); reflexivity. Qed.

Lemma invoke_fails (prompt : text) (st st' : St) (e : Exn) :
  call prompt st = (inl e, st') -> raised e.
Proof.
  rewrite invoke_run. intros H. inversion H as [[H1 H2]].
  exists prompt, (world st). exact H1.
Qed.

Lemma validate_ok (result s : text) (st st' : St) :
  validate result st = (inr s, st') ->
  st' = st /\ s = strip result /\ 50 <= length s.
Proof.
  unfold validate. destruct result as [|c r]; [discriminate|].
  destruct (Nat.ltb_spec (length (strip (c :: r))) 50) as [Hlt|Hge];
    [discriminate|].
  intros Hv. inversion Hv. subst. auto.
Qed.

Lemma validate_fails (result : text) (st st' : St) (e : Exn) :
  validate result st = (inl e, st') -> st' = st /\ e = too_short.
Proof.
  unfold validate. destruct result as [|c r].
  - intros H; inversion H; auto.
  - destruct (length (strip (c :: r)) <? 50); intros H; inversion H; auto.
Qed.


Lemma mapM_invoke_fails (f : Document -> text) (l : list Document)
    (st st' : St) (e : Exn) :
  mapM (fun doc => call (f doc)) l st = (inl e, st') -> raised e.
Proof.
  revert st. induction l as [|d l IH]; intros st; simpl.
  - discriminate.
  - unfold bind at 1.
    destruct (call (f d) st) as [[e1|b] st1] eqn:E1.
    + intros H. inversion H. subst. eapply invoke_fails; eauto.
    + unfold bind at 1.
      destruct (mapM _ l st1) as [[e2|bs] st2] eqn:E2.
      * intros H. inversion H. subst. eapply IH; eauto.
      * discriminate.
Qed.

(** The chunker never raises and sends nothing to the model. *)
Lemma chunk_documents_total (docs : list Document) (ct : ContentType) (st : St) :
  exists chunks msg,
    chunk docs ct st
    = (inr chunks, mkState (world st) (trace st ++ [msg]))
    /\ is_call msg = false
    /\ forall st0, fst (chunk docs ct st0) = inr chunks.
Proof.
  unfold chunk_documents.
  destruct ct;
    match goal with
    | |- context [split_documents ?a ?b docs] =>
        destruct (split_documents a b docs) as [e|sd]
    end;
    eexists; eexists; (split; [reflexivity|split; [reflexivity|reflexivity]]).
Qed.

Section Attempt.

Variable docs : list Document.
Variable ct : ContentType.
Variable tokens : Z.
Variable prompts : PromptSet.

Lemma run_chain_fails (st st' : St) (e : Exn) :
  chain docs ct tokens prompts st = (inl e, st') -> raised e.
Proof.
  unfold run_chain. destruct (tokens <? MAX_TOKENS)%Z.
  - unfold bind, logger_info, stuff_chain. rewrite emit_run.
    apply invoke_fails.
  - unfold bind at 1. unfold logger_info at 1. rewrite emit_run.
    unfold bind at 1.
    destruct (chunk_documents_total docs ct
                (mkState (world st)
                   (trace st ++ [LogInfo (lit "Using 'map_reduce' chain for summarization")])))
      as (chunks & msg & Hc & _ & _).
    rewrite Hc. unfold map_reduce_chain, bind.
    destruct (mapM _ chunks _) as [[e1|summaries] st1] eqn:E1.
    + intros H. inversion H. subst.
      exact (mapM_invoke_fails
               (fun doc => format_prompt (map_prompt prompts) (page_content doc))
               _ _ _ _ E1).
    + apply invoke_fails.
Qed.

Lemma attempt_ok (st st' : St) (s : text) :
  attempt docs ct tokens prompts st = (inr s, st') ->
  strip s = s /\ 50 <= length s.
Proof.
  unfold attempt_body, bind.
  destruct (chain docs ct tokens prompts st) as [[e|r] st1]; [discriminate|].
  intros H. apply validate_ok in H. destruct H as (_ & Hs & Hl).
  split; [|exact Hl]. subst s. apply strip_idem.
Qed.

Lemma attempt_fails (st st' : St) (e : Exn) :
  attempt docs ct tokens prompts st = (inl e, st') ->
  e = too_short \/ raised e.
Proof.
  unfold attempt_body, bind.
  destruct (chain docs ct tokens prompts st) as [[e1|r] st1] eqn:E1.
  - intros H. inversion H. subst. right. eapply run_chain_fails; eauto.
  - intros H. apply validate_fails in H. left. apply H.
Qed.

Lemma fallback_summary_valid :
  strip fallback_summary = fallback_summary /\ length fallback_summary = 50.
Proof. split; reflexivity. Qed.

(** The outcome of the loop when [remaining] rounds are left and the
    index of the next one is [i]: a valid summary, or the error of
    exhausted retries after [remaining] failed rounds. *)
Lemma retry_loop_outcome (max_retries : Z) (remaining : nat) :
  forall (i : Z) (st : St),
    max_retries = (i + Z.of_nat remaining)%Z ->
    match loop docs ct tokens prompts max_retries remaining i st with
    | (inr s, _) => strip s = s /\ 50 <= length s
    | (inl e, st') =>
        exists earlier last_failure,
          failed_attempts (attempt docs ct tokens prompts) remaining i st
            (earlier ++ [last_failure]) st'
          /\ e = retries_exhausted max_retries last_failure
          /\ Forall (fun x => x = too_short \/ raised x)
               (earlier ++ [last_failure])
    end.
Proof.
  induction remaining as [|r IH]; intros i st Hmax.
  - cbn [retry_loop]. unfold ret. destruct fallback_summary_valid as [H1 H2].
    split; [exact H1|]. rewrite H2. apply le_n.
  - cbn [retry_loop]. unfold try_except.
    destruct (attempt docs ct tokens prompts st) as [[e|s] st1] eqn:Ea.
    + pose proof (attempt_fails _ _ _ Ea) as He.
      unfold bind, logger_warning. rewrite emit_run.
      destruct (Z.eqb_spec i (max_retries - 1)) as [Hi|Hi].
      * assert (r = 0) by lia. subst r.
        unfold raise. exists [], e. simpl.
        split; [|split; [reflexivity|constructor; [exact He|constructor]]].
        eapply failed_next; [exact Ea|]. apply failed_none.
      * specialize (IH (i + 1)%Z
                      (mkState (world st1)
                         (trace st1 ++ [LogWarning (attempt_failed i e)]))).
        assert (Hm : max_retries = (i + 1 + Z.of_nat r)%Z) by lia.
        specialize (IH Hm).
        destruct (loop docs ct tokens prompts max_retries r (i + 1) _)
          as [[e2|s2] st2]; [|exact IH].
        destruct IH as (earlier & last_failure & Hf & He2 & Hall).
        exists (e :: earlier), last_failure. simpl.
        split; [|split; [exact He2|constructor; assumption]].
        eapply failed_next; [exact Ea|exact Hf].
    + eapply attempt_ok; eauto.
Qed.

End Attempt.


Lemma failed_attempts_length (body : M World text) (n : nat) (i : Z)
    (st st' : St) (errs : list Exn) :
  failed_attempts body n i st errs st' -> length errs = n.
Proof.
  induction 1; simpl; [reflexivity|]. now f_equal.
Qed.

Lemma filter_nonblank_nil (docs : list Document) :
  filter nonblank docs = []
  <-> docs = [] \/ Forall (fun d => strip (page_content d) = []) docs.
Proof.
  split.
  - intros H. right. induction docs as [|d ds IH]; [constructor|].
    simpl in H. unfold nonblank in H at 1.
    destruct (strip (page_content d)) eqn:E; [|discriminate].
    constructor; [exact E|exact (IH H)].
  - intros [->|H]; [reflexivity|].
    induction H as [|d ds Hd _ IH]; [reflexivity|].
    simpl. unfold nonblank at 1. now rewrite Hd.
Qed.

Lemma summarize_chain_blank (docs : list Document) (n : Z) (st : St) :
  filter nonblank docs = [] ->
  exists msg, summarize docs n st = (inl (mkExn ValueError msg), st).
Proof.
  intros H. unfold summarize_chain.
  destruct docs as [|d ds]; [eexists; reflexivity|].
  rewrite H. eexists; reflexivity.
Qed.

Lemma summarize_chain_loop (docs : list Document) (n : Z) (st : St) :
  filter nonblank docs <> [] ->
  summarize docs n st
  = loop (filter nonblank docs) (detect_content_type (filter nonblank docs))
      (estimate_tokens (join (lit " ") (map page_content (filter nonblank docs))))
      (create_enhanced_prompts (detect_content_type (filter nonblank docs)))
      n (Z.to_nat n) 0 (loop_start docs st).
Proof.
  intros H. unfold summarize_chain.
  destruct docs as [|d ds]; [now elim H|].
  destruct (filter nonblank (d :: ds)) as [|k ks] eqn:E; [now elim H|].
  unfold loop_start. rewrite E. reflexivity.
Qed.

(** The outcome of [summarize_chain] on documents that are not all
    blank. *)
Lemma summarize_chain_outcome (docs : list Document) (n : Z) (st : St) :
  filter nonblank docs <> [] ->
  match summarize docs n st with
  | (inr s, _) => strip s = s /\ 50 <= length s
  | (inl e, st') =>
      exists earlier last_failure,
        failed_attempts
          (attempt (filter nonblank docs)
             (detect_content_type (filter nonblank docs))
             (estimate_tokens
                (join (lit " ") (map page_content (filter nonblank docs))))
             (create_enhanced_prompts (detect_content_type (filter nonblank docs))))
          (Z.to_nat n) 0 (loop_start docs st) (earlier ++ [last_failure]) st'
        /\ e = retries_exhausted n last_failure
        /\ Forall (fun x => x = too_short \/ raised x)
             (earlier ++ [last_failure])
  end.
Proof.
  intros H. rewrite (summarize_chain_loop docs n st H).
  destruct (Z.to_nat n) as [|r] eqn:En.
  - cbn [retry_loop]. unfold ret. destruct fallback_summary_valid as [H1 H2].
    split; [exact H1|]. rewrite H2. apply le_n.
  - apply retry_loop_outcome. lia.
Qed.

(** C1: on documents that are not all blank, for every [max_retries],
    [summarize_chain] returns a trimmed string of at least 50 characters,
    or raises the RuntimeError of exhausted retries after exactly
    [max_retries] rounds, each of which ran the same attempt and failed
    on the validation or on an exception of the model; the error wraps
    the message of the last failure. *)
Theorem summarize_returns_or_exhausts (docs : list Document)
    (max_retries : Z) (st : St) :
  filter nonblank docs <> [] ->
  match summarize docs max_retries st with
  | (inr s, _) => strip s = s /\ 50 <= length s
  | (inl e, st') =>
      exists earlier last_failure,
        failed_attempts
          (attempt (filter nonblank docs)
             (detect_content_type (filter nonblank docs))
             (estimate_tokens
                (join (lit " ") (map page_content (filter nonblank docs))))
             (create_enhanced_prompts (detect_content_type (filter nonblank docs))))
          (Z.to_nat max_retries) 0 (loop_start docs st)
          (earlier ++ [last_failure]) st'
        /\ Z.of_nat (length (earlier ++ [last_failure])) = max_retries
        /\ exn_kind e = RuntimeError
        /\ exn_msg e
           = lit "Failed to generate summary after " ++ str_of_Z max_retries
             ++ lit " attempts: " ++ exn_msg last_failure
        /\ Forall (fun x => x = too_short \/ raised x)
             (earlier ++ [last_failure])
  end.
Proof.
  intros H. pose proof (summarize_chain_outcome docs max_retries st H) as Ho.
  destruct (summarize docs max_retries st) as [[e|s] st']; [|exact Ho].
  destruct Ho as (earlier & last_failure & Hf & He & Hall).
  exists earlier, last_failure.
  split; [exact Hf|]. split.
  - rewrite (failed_attempts_length _ _ _ _ _ _ Hf).
    pose proof (failed_attempts_length _ _ _ _ _ _ Hf) as Hl.
    rewrite length_app in Hl. simpl in Hl. lia.
  - subst e. repeat split. exact Hall.
Qed.

(** C2, amended: every string that [summarize_chain] returns is trimmed,
    not empty and at least 50 characters long.  (No structure marker is
    looked for: [validate_summary_quality], which does, is not called.) *)
Theorem summarize_result_is_long (docs : list Document) (max_retries : Z)
    (st : St) (s : text) :
  fst (summarize docs max_retries st) = inr s ->
  strip s = s /\ s <> [] /\ 50 <= length s.
Proof.
  intros Hs.
  destruct (filter nonblank docs) as [|k ks] eqn:E.
  - destruct (summarize_chain_blank docs max_retries st E) as [msg Hm].
    rewrite Hm in Hs. discriminate.
  - assert (Hne : filter nonblank docs <> []) by (rewrite E; discriminate).
    pose proof (summarize_chain_outcome docs max_retries st Hne) as Ho.
    destruct (summarize docs max_retries st) as [[e|s'] st']; [discriminate|].
    simpl in Hs. inversion Hs. subst s'. destruct Ho as [H1 H2].
    split; [exact H1|]. split; [|exact H2].
    intros ->. simpl in H2. lia.
Qed.

(** C6: [summarize_chain] raises a ValueError iff the document sequence
    is empty or every document is blank after trimming; the error is
    raised at once: the state is untouched, so nothing was logged, no
    prompt was sent and no round of the loop was run. *)
Theorem summarize_value_error (docs : list Document) (max_retries : Z) (st : St) :
  ((exists msg, fst (summarize docs max_retries st) = inl (mkExn ValueError msg))
   <-> (docs = [] \/ Forall (fun d => strip (page_content d) = []) docs))
  /\ ((docs = [] \/ Forall (fun d => strip (page_content d) = []) docs) ->
      snd (summarize docs max_retries st) = st).
Proof.
  split; [split|].
  - intros [msg Hm]. apply filter_nonblank_nil.
    destruct (filter nonblank docs) as [|k ks] eqn:E; [reflexivity|].
    assert (Hne : filter nonblank docs <> []) by (rewrite E; discriminate).
    pose proof (summarize_chain_outcome docs max_retries st Hne) as Ho.
    destruct (summarize docs max_retries st) as [[e|s'] st']; [|discriminate].
    destruct Ho as (earlier & last_failure & _ & He & _).
    simpl in Hm. inversion Hm. subst e. discriminate.
  - intros Hb. apply filter_nonblank_nil in Hb.
    destruct (summarize_chain_blank docs max_retries st Hb) as [msg Hm].
    exists msg. now rewrite Hm.
  - intros Hb. apply filter_nonblank_nil in Hb.
    destruct (summarize_chain_blank docs max_retries st Hb) as [msg Hm].
    now rewrite Hm.
Qed.

(** C10, amended: with [max_retries] zero or negative and documents that
    are not all blank, [summarize_chain] sends no prompt and raises no
    error; it returns the fixed string, whose trimmed length is exactly
    50 characters. *)
Theorem summarize_without_retries (docs : list Document) (max_retries : Z)
    (st : St) :
  (max_retries <= 0)%Z ->
  filter nonblank docs <> [] ->
  summarize docs max_retries st = (inr fallback_summary, loop_start docs st)
  /\ world (loop_start docs st) = world st
  /\ llm_calls (trace (loop_start docs st)) = llm_calls (trace st)
  /\ fallback_summary = lit "Summary generation failed after multiple attempts."
  /\ length (strip fallback_summary) = 50.
Proof.
  intros Hn H. rewrite (summarize_chain_loop docs max_retries st H).
  replace (Z.to_nat max_retries) with 0 by lia.
  split; [reflexivity|]. split; [reflexivity|].
  split; [|split; reflexivity].
  unfold loop_start. cbn [trace]. rewrite !llm_calls_app. simpl.
  now rewrite !app_nil_r.
Qed.

End PipelineFacts.

(** *** The rounds of the strategy *)

Section StrategyFacts.

Variable World : Type.
Variable llm : text -> World -> (Exn + text) * World.
Variable split_documents : nat -> nat -> list Document -> Exn + list Document.
Variable document_separator : text.

Local Abbreviation St := (State World).
Local Abbreviation call := (invoke llm).
Local Abbreviation chain := (run_chain llm split_documents document_separator).
Local Abbreviation attempt := (attempt_body llm split_documents document_separator).
Local Abbreviation loop := (retry_loop llm split_documents document_separator).
Local Abbreviation summarize := (summarize_chain llm split_documents document_separator).
Local Abbreviation answered := (answered_in_turn World llm).
Local Abbreviation round := (strategy_round World llm split_documents document_separator).
Local Abbreviation rounds := (rounds_from World llm split_documents document_separator).

(** The map phase: the answers are those of the model, in turn. *)
Lemma mapM_invoke_answers (g : Document -> text) (l : list Document) :
  forall st : St,
    match mapM (fun doc => call (g doc)) l st with
    | (inr summaries, st') =>
        answered (map g l) (world st) summaries (world st')
        /\ llm_calls (trace st') = llm_calls (trace st) ++ map g l
    | (inl e, st') =>
        exists k answers w1,
          k < length (map g l)
          /\ answered (firstn k (map g l)) (world st) answers w1
          /\ llm (nth k (map g l) []) w1 = (inl e, world st')
          /\ llm_calls (trace st') = llm_calls (trace st) ++ firstn (S k) (map g l)
    end.
Proof.
  induction l as [|d l IH]; intros st.
  - simpl. unfold ret. split; [constructor|]. now rewrite app_nil_r.
  - cbn [mapM]. unfold bind at 1. rewrite invoke_run.
    destruct (llm (g d) (world st)) as [r w1] eqn:El. cbn [fst snd].
    destruct r as [e|b].
    + exists 0, [], (world st).
      split; [simpl; lia|]. split; [constructor|].
      split; [exact El|].
      cbn [trace]. rewrite llm_calls_app. reflexivity.
    + unfold bind at 1.
      specialize (IH (mkState w1 (trace st ++ [LLMCall (g d)]))).
      destruct (mapM _ l _) as [[e2|bs] st2].
      * destruct IH as (k & answers & w2 & Hk & Ha & Hl & Hc).
        cbn [world trace] in *.
        exists (S k), (b :: answers), w2.
        split; [simpl; lia|]. split.
        { cbn [map firstn]. apply answered_next; rewrite El; [reflexivity|exact Ha]. }
        split; [exact Hl|].
        rewrite Hc, llm_calls_app. simpl. now rewrite <- app_assoc.
      * unfold ret. destruct IH as [Ha Hc]. cbn [world trace] in *. split.
        { cbn [map]. apply answered_next; rewrite El; [reflexivity|exact Ha]. }
        rewrite Hc, llm_calls_app. simpl. now rewrite <- app_assoc.
Qed.

Section Round.

Variable docs : list Document.

Local Abbreviation ct := (detect_content_type docs).
Local Abbreviation tokens :=
  (estimate_tokens (join (lit " ") (map page_content docs))).
Local Abbreviation prompts := (create_enhanced_prompts (detect_content_type docs)).

(** The chain of an attempt is a round of the strategy. *)
Lemma run_chain_round (st st' : St) (out : Exn + text) :
  chain docs ct tokens prompts st = (out, st') ->
  exists calls,
    round docs (world st) calls out (world st')
    /\ llm_calls (trace st') = llm_calls (trace st) ++ calls.
Proof.
  assert (Hi : forall m, llm_calls [LogInfo m] = []) by reflexivity.
  unfold strategy_round, run_chain. change 6000%Z with MAX_TOKENS.
  destruct (tokens <? MAX_TOKENS)%Z.
  - unfold bind, logger_info, stuff_chain. rewrite emit_run, invoke_run.
    intros H. inversion H. subst out st'. clear H.
    eexists. split.
    + split; [reflexivity|]. cbn [world].
      now destruct (llm _ (world st)).
    + cbn [trace]. rewrite !llm_calls_app, Hi, app_nil_r. reflexivity.
  - destruct (chunk_documents_total World split_documents docs ct
                (mkState (world st)
                   (trace st ++ [LogInfo (lit "Using 'map_reduce' chain for summarization")])))
      as (chunks & msg & Hc & Hmsg & Hval).
    assert (Hq : llm_calls [msg] = [])
      by (destruct msg; [reflexivity..|discriminate]).
    unfold bind at 1. unfold logger_info at 1. rewrite emit_run.
    unfold bind at 1. rewrite Hc.
    unfold map_reduce_chain, bind.
    match goal with
    | |- context [mapM ?g chunks ?s0] =>
        pose proof (mapM_invoke_answers
                      (fun doc => format_prompt (map_prompt prompts) (page_content doc))
                      chunks s0) as Hm;
        destruct (mapM g chunks s0) as [[e|summaries] st1]
    end.
    + destruct Hm as (k & answers & w1 & Hk & Ha & Hl & Hcalls).
      cbn [trace world] in Hcalls, Ha. rewrite !llm_calls_app in Hcalls.
      rewrite Hq, Hi, !app_nil_r in Hcalls.
      intros H. inversion H. subst out st'. clear H.
      eexists. split; [|exact Hcalls].
      exists chunks. split; [exact Hval|]. right.
      exists k, answers, w1, e. auto.
    + destruct Hm as [Ha Hcalls]. rewrite invoke_run.
      cbn [trace world] in Hcalls, Ha. rewrite !llm_calls_app in Hcalls.
      rewrite Hq, Hi, !app_nil_r in Hcalls.
      intros H. inversion H. subst out st'. clear H.
      eexists. cbn [trace world]. split.
      * exists chunks. split; [exact Hval|]. left.
        exists summaries, (world st1). split; [exact Ha|].
        split; [reflexivity|]. now destruct (llm _ (world st1)).
      * rewrite llm_calls_app, Hcalls, <- app_assoc. reflexivity.
Qed.

(** So is an attempt, whose summary is the trimmed completion. *)
Lemma attempt_round (st st' : St) (r : Exn + text) :
  attempt docs ct tokens prompts st = (r, st') ->
  exists calls out,
    round docs (world st) calls out (world st')
    /\ llm_calls (trace st') = llm_calls (trace st) ++ calls
    /\ forall s, r = inr s -> exists result, out = inr result /\ s = strip result.
Proof.
  unfold attempt_body, bind.
  destruct (chain docs ct tokens prompts st) as [out st1] eqn:E.
  destruct (run_chain_round st st1 out E) as (calls & Hr & Hc).
  destruct out as [e|result].
  - intros H. inversion H. subst r st'.
    exists calls, (inl e). split; [exact Hr|]. split; [exact Hc|]. discriminate.
  - intros H. exists calls, (inr result).
    destruct r as [e|s].
    + apply validate_fails in H. destruct H as [-> _].
      split; [exact Hr|]. split; [exact Hc|]. discriminate.
    + apply validate_ok in H. destruct H as (-> & -> & _).
      split; [exact Hr|]. split; [exact Hc|].
      intros s Hs. inversion Hs. now exists result.
Qed.

(** The loop is a row of rounds. *)
Lemma retry_loop_rounds (max_retries : Z) :
  forall (remaining : nat) (i : Z) (st st' : St) (r : Exn + text),
    max_retries = (i + Z.of_nat remaining)%Z ->
    loop docs ct tokens prompts max_retries remaining i st = (r, st') ->
    exists rs,
      rounds docs (world st) rs (world st')
      /\ llm_calls (trace st') = llm_calls (trace st) ++ concat (map fst rs)
      /\ length rs <= remaining
      /\ (remaining <> 0 -> 1 <= length rs)
      /\ forall s,
           r = inr s ->
           rs = []
           \/ exists earlier calls result,
                rs = earlier ++ [(calls, inr result)] /\ s = strip result.
Proof.
  assert (Hw : forall m, llm_calls [LogWarning m] = []) by reflexivity.
  induction remaining as [|n IH]; intros i st st' r Hmax.
  - cbn [retry_loop]. unfold ret. intros H. inversion H. subst r st'.
    exists []. cbn [map concat]. rewrite app_nil_r.
    split; [constructor|]. split; [reflexivity|].
    split; [simpl; lia|]. split; [congruence|auto].
  - cbn [retry_loop]. unfold try_except.
    destruct (attempt docs ct tokens prompts st) as [[e|s] st1] eqn:Ea;
      destruct (attempt_round st st1 _ Ea) as (calls & out & Hr & Hc & Hs).
    + unfold bind, logger_warning. rewrite emit_run.
      destruct (Z.eqb_spec i (max_retries - 1)) as [Hi|Hi].
      * unfold raise. intros H. inversion H. subst r st'. clear H.
        exists [(calls, out)]. cbn [world trace].
        split; [econstructor; [exact Hr|constructor]|].
        split; [rewrite llm_calls_app, Hc, Hw; cbn [map fst concat];
                now rewrite !app_nil_r|].
        split; [simpl; lia|]. split; [simpl; lia|]. discriminate.
      * intros H.
        destruct (IH (i + 1)%Z _ _ _ ltac:(lia) H)
          as (rest & Hrest & Hcalls & Hlen & Hpos & Hres).
        cbn [world trace] in Hrest, Hcalls.
        exists ((calls, out) :: rest).
        split; [econstructor; [exact Hr|exact Hrest]|].
        split.
        { rewrite Hcalls, llm_calls_app, Hc, Hw. cbn [map fst concat].
          now rewrite app_nil_r, <- app_assoc. }
        split; [simpl; lia|]. split; [simpl; lia|].
        intros s Hsum. right.
        destruct (Hres s Hsum) as [->|(earlier & c & result & -> & ->)].
        { assert (Hn : n <> 0) by lia. specialize (Hpos Hn). simpl in Hpos. lia. }
        exists ((calls, out) :: earlier), c, result. auto.
    + intros H. inversion H. subst r st'. clear H.
      destruct (Hs s eq_refl) as (result & -> & ->).
      exists [(calls, inr result)].
      split; [econstructor; [exact Hr|constructor]|].
      split; [rewrite Hc; cbn [map fst concat]; now rewrite app_nil_r|].
      split; [simpl; lia|]. split; [simpl; lia|].
      intros s Hsum. inversion Hsum. right. exists [], calls, result. auto.
Qed.

End Round.

Lemma loop_start_world (docs : list Document) (st : St) :
  world (loop_start docs st) = world st
  /\ llm_calls (trace (loop_start docs st)) = llm_calls (trace st).
Proof.
  split; [reflexivity|]. unfold loop_start. cbn [trace].
  rewrite !llm_calls_app. simpl. now rewrite !app_nil_r.
Qed.

(** C4: on documents that are not all blank, a run of [summarize_chain]
    is a row of rounds of the strategy, one per attempt: at most
    [max_retries] of them, at least one when [max_retries] is positive,
    each starting in the world of the model the one before has reached,
    and the model is invoked for their prompts and for nothing else.
    When the estimate of the joined documents is below 6000, a round is
    the single pass: one invocation, with the stuff prompt formatted over
    the concatenated text.  From 6000 on it is map-reduce over the chunks
    that [chunk_documents] returns: one map prompt per chunk, answered in
    turn, then exactly one combine prompt over the concatenation of these
    answers; a round in which the model raises on a map prompt ends with
    that invocation.  A summary that is returned is the trimmed
    completion of the last round. *)
Theorem strategy_by_token_budget (docs : list Document) (max_retries : Z)
    (st : St) :
  filter nonblank docs <> [] ->
  exists rs,
    rounds (filter nonblank docs) (world st) rs
      (world (snd (summarize docs max_retries st)))
    /\ llm_calls (trace (snd (summarize docs max_retries st)))
       = llm_calls (trace st) ++ concat (map fst rs)
    /\ length rs <= Z.to_nat max_retries
    /\ ((1 <= max_retries)%Z -> 1 <= length rs)
    /\ forall s,
         fst (summarize docs max_retries st) = inr s ->
         rs = []
         \/ exists earlier calls result,
              rs = earlier ++ [(calls, inr result)] /\ s = strip result.
Proof.
  intros Hne.
  rewrite (summarize_chain_loop World llm split_documents document_separator
             docs max_retries st Hne).
  destruct (loop_start_world docs st) as [Hw Hc0].
  destruct (loop _ _ _ _ max_retries (Z.to_nat max_retries) 0 (loop_start docs st))
    as [r st'] eqn:E. cbn [fst snd].
  destruct (Z.le_gt_cases 1 max_retries) as [Hge|Hlt].
  - assert (Hmax : max_retries = (0 + Z.of_nat (Z.to_nat max_retries))%Z) by lia.
    destruct (retry_loop_rounds (filter nonblank docs) max_retries
                (Z.to_nat max_retries) 0 (loop_start docs st) st' r Hmax E)
      as (rs & Hr & Hc & Hl & Hp & Hs).
    exists rs. rewrite Hw in Hr. rewrite Hc0 in Hc.
    split; [exact Hr|]. split; [exact Hc|].
    split; [exact Hl|]. split; [intros _; apply Hp; lia|exact Hs].
  - replace (Z.to_nat max_retries) with 0 in E by lia. cbn [retry_loop] in E.
    unfold ret in E. inversion E. subst r st'.
    exists []. cbn [map concat]. rewrite app_nil_r.
    split; [rewrite Hw; constructor|].
    split; [exact Hc0|]. split; [simpl; lia|]. split; [lia|auto].
Qed.

End StrategyFacts.

(** C4 at a document of 6000 estimated tokens. *)
Lemma strategy_by_token_budget_witness :
  filter nonblank dense_docs <> []
  /\ exists rs,
       rounds_from nat counting_llm identity_splitter paragraph_break
         (filter nonblank dense_docs) (world (mkState 0 [])) rs
         (world (snd (summarize_chain counting_llm identity_splitter
                        paragraph_break dense_docs 3 (mkState 0 []))))
       /\ llm_calls
            (trace (snd (summarize_chain counting_llm identity_splitter
                           paragraph_break dense_docs 3 (mkState 0 []))))
          = llm_calls (trace (mkState 0 [])) ++ concat (map fst rs)
       /\ length rs <= Z.to_nat 3
       /\ ((1 <= 3)%Z -> 1 <= length rs)
       /\ forall s,
            fst (summarize_chain counting_llm identity_splitter
                   paragraph_break dense_docs 3 (mkState 0 [])) = inr s ->
            rs = []
            \/ exists earlier calls result,
                 rs = earlier ++ [(calls, inr result)] /\ s = strip result.
Proof.
  assert (Hne : filter nonblank dense_docs <> [])
    by (intros H; vm_compute in H; discriminate H).
  split; [exact Hne|].
  exact (strategy_by_token_budget nat counting_llm identity_splitter
           paragraph_break dense_docs 3 (mkState 0 []) Hne).
Defined.

(** The run of the witness: one map prompt over the one chunk, then the
    combine prompt over the answer to it; the summary is the answer to
    the combine prompt. *)
Example map_reduce_run :
  estimate_tokens (join (lit " ") (map page_content dense_docs)) = 6000%Z
  /\ fst (summarize_chain counting_llm identity_splitter paragraph_break
            dense_docs 3 (mkState 0 []))
     = inr (structured_answer ++ lit "1")
  /\ llm_calls
       (trace (snd (summarize_chain counting_llm identity_splitter
                      paragraph_break dense_docs 3 (mkState 0 []))))
     = [format_prompt general_map_template dense_text;
        format_prompt general_combine_template (structured_answer ++ lit "0")].
Proof. repeat split; vm_compute; reflexivity. Qed.


(** C1 at a concrete input: the model always fails and two rounds are
    allowed. *)
Lemma summarize_returns_or_exhausts_witness :
  filter nonblank sample_docs <> []
  /\ match summarize_chain (failing_llm rate_limited) identity_splitter
             paragraph_break sample_docs 2 initial_state with
     | (inr s, _) => strip s = s /\ 50 <= length s
     | (inl e, st') =>
         exists earlier last_failure,
           failed_attempts
             (attempt_body (failing_llm rate_limited) identity_splitter
                paragraph_break (filter nonblank sample_docs)
                (detect_content_type (filter nonblank sample_docs))
                (estimate_tokens
                   (join (lit " ") (map page_content (filter nonblank sample_docs))))
                (create_enhanced_prompts
                   (detect_content_type (filter nonblank sample_docs))))
             (Z.to_nat 2) 0 (loop_start sample_docs initial_state)
             (earlier ++ [last_failure]) st'
           /\ Z.of_nat (length (earlier ++ [last_failure])) = 2%Z
           /\ exn_kind e = RuntimeError
           /\ exn_msg e
              = lit "Failed to generate summary after " ++ str_of_Z 2
                ++ lit " attempts: " ++ exn_msg last_failure
           /\ Forall (fun x => x = too_short
                               \/ raised_by_llm (failing_llm rate_limited) x)
                (earlier ++ [last_failure])
     end.
Proof.
  split.
  - intros H. vm_compute in H. discriminate H.
  - apply (summarize_returns_or_exhausts unit (failing_llm rate_limited)
             identity_splitter paragraph_break sample_docs 2 initial_state).
    intros H. vm_compute in H. discriminate H.
Defined.

(** The two outcomes of C1 on runs: a model that fails twice exhausts the
    two rounds; a model that answers at once is returned trimmed. *)
Example summarize_exhausts_two_rounds :
  fst (summarize_chain (failing_llm rate_limited) identity_splitter
         paragraph_break sample_docs 2 initial_state)
  = inl (mkExn RuntimeError
           (lit "Failed to generate summary after 2 attempts: rate limit exceeded")).
Proof. vm_compute. reflexivity. Qed.

Example summarize_returns_first_answer :
  summarize_chain (constant_llm unstructured_answer) identity_splitter
    paragraph_break sample_docs 3 initial_state
  = (inr (strip unstructured_answer),
     mkState tt
       [LogInfo (lit "Detected content type: general");
        LogInfo (lit "Estimated tokens: 12");
        LogInfo (lit "Using 'stuff' chain for summarization");
        LLMCall (format_prompt general_stuff_template
                   (lit "The quick brown fox jumps over the lazy dog."))]).
Proof. vm_compute. reflexivity. Qed.

(** C2, as stated, fails: the model answers sixty words with no structure
    marker; [summarize_chain] returns them, though
    [validate_summary_quality] rejects them for their structure. *)
Lemma unstructured_summary_returned :
  fst (summarize_chain (constant_llm unstructured_answer) identity_splitter
         paragraph_break sample_docs 3 initial_state)
  = inr (strip unstructured_answer)
  /\ has_structure_marker (strip unstructured_answer) = false
  /\ validate_summary_quality (strip unstructured_answer)
     = (false, lit "Summary lacks proper structure").
Proof. repeat split; vm_compute; reflexivity. Qed.

(** C2, amended, at the same run. *)
Lemma summarize_result_is_long_witness :
  fst (summarize_chain (constant_llm unstructured_answer) identity_splitter
         paragraph_break sample_docs 3 initial_state)
  = inr (strip unstructured_answer)
  /\ strip (strip unstructured_answer) = strip unstructured_answer
  /\ strip unstructured_answer <> []
  /\ 50 <= length (strip unstructured_answer).
Proof.
  split.
  - vm_compute. reflexivity.
  - apply (summarize_result_is_long unit (constant_llm unstructured_answer)
             identity_splitter paragraph_break sample_docs 3 initial_state).
    vm_compute. reflexivity.
Defined.

(** C10, as stated, fails: with no round allowed the fixed string is
    returned, and its trimmed length is not below 50. *)
Lemma fallback_summary_not_short :
  fst (summarize_chain (constant_llm unstructured_answer) identity_splitter
         paragraph_break sample_docs 0 initial_state)
  = inr (lit "Summary generation failed after multiple attempts.")
  /\ ~ length (strip (lit "Summary generation failed after multiple attempts.")) < 50.
Proof.
  split.
  - vm_compute. reflexivity.
  - vm_compute. intros H. do 50 apply le_S_n in H. inversion H.
Qed.

(** C10, amended, at a concrete input. *)
Lemma summarize_without_retries_witness :
  (0 <= 0)%Z
  /\ filter nonblank sample_docs <> []
  /\ summarize_chain (constant_llm unstructured_answer) identity_splitter
       paragraph_break sample_docs 0 initial_state
     = (inr fallback_summary, loop_start sample_docs initial_state)
  /\ world (loop_start sample_docs initial_state) = world initial_state
  /\ llm_calls (trace (loop_start sample_docs initial_state))
     = llm_calls (trace initial_state)
  /\ fallback_summary = lit "Summary generation failed after multiple attempts."
  /\ length (strip fallback_summary) = 50.
Proof.
  split; [apply Z.le_refl|].
  split; [intros H; vm_compute in H; discriminate H|].
  apply (summarize_without_retries unit (constant_llm unstructured_answer)
           identity_splitter paragraph_break sample_docs 0 initial_state).
  - apply Z.le_refl.
  - intros H. vm_compute in H. discriminate H.
Defined.

(** ** Properties of the narration hand-off *)

Lemma continuation_notice_length : length continuation_notice = 37.
Proof. reflexivity. Qed.

(** C5, as stated, fails both ways.  An input longer than 5000 characters
    whose sanitised text is short is handed on in full, with no notice;
    an input of 900 characters whose sanitised text is long is
    truncated. *)
Lemma truncation_ignores_input_length :
  5000 < length mostly_blank_text
  /\ generate_audio_text mostly_blank_text = inr (lit "a b.")
  /\ length abbreviated_text <= 5000
  /\ length (clean_text_for_audio abbreviated_text) = 5099
  /\ generate_audio_text abbreviated_text
     = inr (firstn 4800 (clean_text_for_audio abbreviated_text)
            ++ continuation_notice).
Proof.
  split; [apply Nat.ltb_lt; vm_compute; reflexivity|].
  split; [vm_compute; reflexivity|].
  split; [apply Nat.leb_le; vm_compute; reflexivity|].
  split; vm_compute; reflexivity.
Qed.

(** C5, amended: the truncation is decided on the sanitised text.  When
    it is longer than 5000 characters, the text handed on is its first
    4800 characters followed by the continuation notice, 4837 characters
    in all; when it is at most 5000 characters long it is handed on
    unchanged.  In both cases at most 5000 characters are handed on. *)
Theorem narration_text_bounded (summary_text : text) :
  match generate_audio_text summary_text with
  | inl e => strip summary_text = [] /\ exn_kind e = ValueError
  | inr t =>
      (5000 < length (clean_text_for_audio summary_text) ->
       t = firstn 4800 (clean_text_for_audio summary_text) ++ continuation_notice
       /\ length t = 4837)
      /\ (length (clean_text_for_audio summary_text) <= 5000 ->
          t = clean_text_for_audio summary_text)
      /\ length t <= 5000
  end.
Proof.
  unfold generate_audio_text.
  destruct (strip summary_text) as [|c r]; [split; reflexivity|].
  destruct (Nat.ltb_spec 5000 (length (clean_text_for_audio summary_text)))
    as [Hlong|Hshort].
  - assert (Hl : length (firstn 4800 (clean_text_for_audio summary_text)
                         ++ continuation_notice) = 4837).
    { rewrite length_app, length_firstn, continuation_notice_length.
      rewrite Nat.min_l by lia. reflexivity. }
    split; [intros _; split; [reflexivity|exact Hl]|].
    split; [intros H; lia|]. rewrite Hl. lia.
  - split; [intros H; lia|]. split; [reflexivity|exact Hshort].
Qed.

(** ** Properties of the sanitiser *)

(** *** Facts on characters, checked on all of them *)

Lemma all_chars_complete (c : ascii) : In c all_chars.
Proof.
  unfold all_chars. rewrite <- (ascii_nat_embedding c).
  apply in_map. apply in_seq. pose proof (nat_ascii_bounded c). lia.
Qed.

Lemma for_all_chars (P : ascii -> bool) :
  forallb P all_chars = true -> forall c, P c = true.
Proof.
  intros H c. rewrite forallb_forall in H. apply H, all_chars_complete.
Qed.


Lemma letter_ci_word (a c : ascii) :
  isletter a = true -> isword c = false ->
  char_eqb (lower_char a) (lower_char c) = false.
Proof.
  pose proof (for_all_chars
    (fun a => forallb (fun c => implb (isletter a && negb (isword c))
                                  (negb (char_eqb (lower_char a) (lower_char c))))
                all_chars)) as H.
  specialize (H ltac:(vm_compute; reflexivity) a).
  rewrite forallb_forall in H. specialize (H c (all_chars_complete c)).
  intros Ha Hc. rewrite Ha, Hc in H. cbn [andb negb implb] in H.
  now rewrite negb_true_iff in H.
Qed.





(** A rule that matches nowhere leaves the text as it is; [R] holds of
    the text that is left at each position. *)
Lemma sub_from_never (m : Re.matcher) (R : option ascii -> text -> Prop) :
  (forall prev c t, R prev (c :: t) -> R (Some c) t) ->
  (forall prev t, R prev t -> m prev t = None) ->
  forall s prev, R prev s -> Re.sub_from m prev 0 s = s.
Proof.
  intros Hstep Hfail. induction s as [|c r IH]; intros prev H; simpl.
  - reflexivity.
  - rewrite (Hfail _ _ H). f_equal. apply IH. eapply Hstep; eauto.
Qed.

Lemma char_eqb_true (a b : ascii) : char_eqb a b = true -> a = b.
Proof. apply Ascii.eqb_eq. Qed.





















(** *** The abbreviation rules on items *)

Lemma flat_cons (w : text) (c : ascii) (its : list item) :
  flat ((w, c) :: its) = w ++ c :: flat its.
Proof. unfold flat. simpl. now rewrite <- app_assoc. Qed.

Lemma flat_app (a b : list item) : flat (a ++ b) = flat a ++ flat b.
Proof. unfold flat. apply flat_map_app. Qed.

Lemma flat_items_end (c : ascii) (s : text) : flat (items_end c s) = s ++ [c].
Proof.
  induction s as [|d r IH]; [reflexivity|]. simpl.
  destruct (isword d).
  - destruct (items_end c r) as [|[w e] its].
    + destruct r; discriminate.
    + rewrite flat_cons in *. simpl. now rewrite IH.
  - rewrite flat_cons. simpl. now rewrite IH.
Qed.

Lemma items_end_valid (c : ascii) (s : text) :
  isword c = false -> Forall (fun it => valid_item it = true) (items_end c s).
Proof.
  intros Hc. induction s as [|d r IH]; simpl.
  - constructor; [|constructor]. unfold valid_item. simpl. now rewrite Hc.
  - destruct (isword d) eqn:Ed.
    + destruct (items_end c r) as [|[w e] its]; [constructor|].
      inversion IH as [|x l Hx Hl]; subst. constructor; [|exact Hl].
      unfold valid_item in *. simpl in *. now rewrite Ed.
    + constructor; [|exact IH]. unfold valid_item. simpl. now rewrite Ed.
Qed.

Lemma match_ends_at (a : text) :
  a <> [] ->
  forall (s : text) (last : option ascii),
    Re.startswith_ci a s
    && Re.word_boundary (hd_error (skipn (length a - 1) s))
         (hd_error (skipn (length a) s))
    = ends_at a last s.
Proof.
  induction a as [|a0 a' IH]; intros Ha s last; [congruence|].
  destruct s as [|d s'].
  - reflexivity.
  - destruct a' as [|a1 a''].
    + simpl. now rewrite andb_true_r.
    + specialize (IH ltac:(discriminate) s' (Some d)).
      cbn [ends_at Re.startswith_ci] in *. rewrite <- IH.
      cbn [length skipn Nat.sub]. rewrite Nat.sub_0_r.
      now rewrite andb_assoc.
Qed.

Lemma ends_at_word (a : text) (c : ascii) (t : text) :
  forallb isletter a = true -> isword c = false ->
  forall (w : text) (last : option ascii),
    (a = [] -> Re.opt_isword last = true) ->
    forallb isword w = true ->
    ends_at a last (w ++ c :: t) = eq_ci a w.
Proof.
  intros Ha Hc. induction a as [|a0 a' IH]; intros w last Hlast Hw.
  - specialize (Hlast eq_refl). destruct w as [|d w']; simpl.
    + unfold Re.word_boundary. simpl. rewrite Hlast, Hc. reflexivity.
    + simpl in Hw. apply andb_true_iff in Hw. destruct Hw as [Hd _].
      unfold Re.word_boundary. simpl. rewrite Hlast, Hd. reflexivity.
  - simpl in Ha. apply andb_true_iff in Ha. destruct Ha as [Ha0 Ha'].
    destruct w as [|d w']; simpl.
    + now rewrite (letter_ci_word a0 c Ha0 Hc).
    + simpl in Hw. apply andb_true_iff in Hw. destruct Hw as [Hd Hw'].
      rewrite (IH Ha' w' (Some d)); [|intros _; exact Hd|exact Hw'].
      unfold eq_ci. simpl.
      destruct (char_eqb (lower_char a0) (lower_char d)); simpl;
        [reflexivity|now rewrite andb_false_r].
Qed.

Section Pass.

Variables a r : text.
Hypothesis a_letters : letters a = true.

Let m := Re.whole_word a r.

Lemma a_first : exists a0 a', a = a0 :: a' /\ isletter a0 = true.
Proof.
  unfold letters in a_letters. destruct a as [|a0 a']; [discriminate|].
  exists a0, a'. split; [reflexivity|]. simpl in a_letters.
  apply andb_true_iff in a_letters. tauto.
Qed.

Lemma a_all_letters : forallb isletter a = true.
Proof. unfold letters in a_letters. now destruct a. Qed.

Lemma a_nonempty : a <> [].
Proof. destruct a_first as (a0 & a' & Ha & _). rewrite Ha. discriminate. Qed.

Lemma sub_from_skip (u t : text) :
  forall prev, exists prev',
    Re.sub_from m prev (length u) (u ++ t) = Re.sub_from m prev' 0 t.
Proof.
  induction u as [|d u IH]; intros prev; simpl.
  - exists prev. destruct t; reflexivity.
  - apply IH.
Qed.

(** A character that is not a word character is copied. *)
Lemma pass_nonword (prev : option ascii) (c : ascii) (t : text) :
  isword c = false ->
  Re.sub_from m prev 0 (c :: t) = c :: Re.sub_from m (Some c) 0 t.
Proof.
  intros Hc. destruct a_first as (a0 & a' & Ha & Hl).
  cbn [Re.sub_from]. unfold m at 1, Re.whole_word. rewrite Ha.
  cbn [Re.startswith_ci]. rewrite (letter_ci_word a0 c Hl Hc).
  now rewrite andb_false_r.
Qed.

(** Inside a word nothing matches. *)
Lemma pass_inside (c : ascii) (t : text) :
  isword c = false ->
  forall (w : text) (prev : option ascii),
    forallb isword w = true -> Re.opt_isword prev = true ->
    Re.sub_from m prev 0 (w ++ c :: t) = w ++ c :: Re.sub_from m (Some c) 0 t.
Proof.
  intros Hc. induction w as [|d w IH]; intros prev Hw Hp.
  - now apply pass_nonword.
  - simpl in Hw. apply andb_true_iff in Hw. destruct Hw as [Hd Hw].
    cbn [app Re.sub_from]. unfold m at 1, Re.whole_word.
    unfold Re.word_boundary at 1. cbn [hd_error Re.opt_isword].
    rewrite Hp, Hd. cbn [xorb andb]. f_equal. now apply IH.
Qed.

(** A whole word is replaced when it is the abbreviation. *)
Lemma pass_word (w : text) (c : ascii) (t : text) (prev : option ascii) :
  forallb isword w = true -> isword c = false ->
  Re.opt_isword prev = false ->
  Re.sub_from m prev 0 (w ++ c :: t)
  = (if eq_ci a w then r else w) ++ c :: Re.sub_from m (Some c) 0 t.
Proof.
  intros Hw Hc Hp. destruct w as [|d w'].
  - assert (E : eq_ci a [] = false).
    { destruct a_first as (a0 & a' & Ha & _). now rewrite Ha. }
    rewrite E. now apply pass_nonword.
  - pose proof Hw as Hw0. simpl in Hw. apply andb_true_iff in Hw.
    destruct Hw as [Hd Hw'].
    cbn [app Re.sub_from]. unfold m at 1, Re.whole_word.
    rewrite <- andb_assoc.
    rewrite (match_ends_at a a_nonempty (d :: w' ++ c :: t) None).
    change (d :: w' ++ c :: t) with ((d :: w') ++ c :: t).
    rewrite (ends_at_word a c t a_all_letters Hc (d :: w') None);
      [|intros E; now elim a_nonempty|exact Hw0].
    unfold Re.word_boundary. cbn [app hd_error Re.opt_isword].
    rewrite Hp, Hd. cbn [xorb andb].
    destruct (eq_ci a (d :: w')) eqn:E.
    + f_equal. unfold eq_ci in E. apply andb_true_iff in E.
      destruct E as [El _]. apply Nat.eqb_eq in El. rewrite El.
      cbn [length Nat.sub]. rewrite Nat.sub_0_r.
      destruct (sub_from_skip w' (c :: t) (Some d)) as [prev' Hs].
      fold m. rewrite Hs. now apply pass_nonword.
    + cbn [app]. f_equal. apply pass_inside; assumption.
Qed.

Lemma flat_expand_item (it : item) :
  flat (expand_item a r it)
  = (if eq_ci a (fst it) then r else fst it) ++ [snd it].
Proof.
  unfold expand_item. destruct (eq_ci a (fst it)).
  - apply flat_items_end.
  - destruct it as [w c]. rewrite flat_cons. simpl. reflexivity.
Qed.

(** One pass of the abbreviation rule, on the items of a text. *)
Lemma pass_items (its : list item) :
  Forall (fun it => valid_item it = true) its ->
  forall prev, Re.opt_isword prev = false ->
    Re.sub_from m prev 0 (flat its) = flat (flat_map (expand_item a r) its).
Proof.
  induction 1 as [|[w c] its Hv _ IH]; intros prev Hp; [reflexivity|].
  unfold valid_item in Hv. simpl in Hv. apply andb_true_iff in Hv.
  destruct Hv as [Hw Hc]. apply negb_true_iff in Hc.
  rewrite flat_cons. cbn [flat_map]. rewrite flat_app, flat_expand_item.
  cbn [fst snd]. rewrite (pass_word w c (flat its) prev Hw Hc Hp).
  rewrite <- app_assoc. cbn [app]. do 2 f_equal.
  apply IH. simpl. exact Hc.
Qed.

Lemma expand_item_valid (it : item) :
  valid_item it = true ->
  Forall (fun it => valid_item it = true) (expand_item a r it).
Proof.
  intros Hv. unfold expand_item. destruct (eq_ci a (fst it)).
  - apply items_end_valid. unfold valid_item in Hv.
    apply andb_true_iff in Hv. now apply negb_true_iff.
  - constructor; [exact Hv|constructor].
Qed.

Lemma pass_valid (its : list item) :
  Forall (fun it => valid_item it = true) its ->
  Forall (fun it => valid_item it = true) (flat_map (expand_item a r) its).
Proof.
  induction 1 as [|it its Hv _ IH]; [constructor|].
  cbn [flat_map]. apply Forall_app. split; [now apply expand_item_valid|exact IH].
Qed.

End Pass.

(** All the passes. *)
Lemma expand_items (l : list (text * text)) :
  Forall (fun p => letters (fst p) = true) l ->
  forall its, Forall (fun it => valid_item it = true) its ->
    fold_left (fun t p => Re.sub (Re.whole_word (fst p) (snd p)) t) l (flat its)
    = flat (run_passes l its).
Proof.
  induction 1 as [|p l Hp _ IH]; intros its Hv; [reflexivity|].
  cbn [fold_left run_passes]. unfold Re.sub.
  rewrite (pass_items (fst p) (snd p) Hp its Hv None eq_refl).
  apply IH. now apply pass_valid.
Qed.

Lemma run_passes_valid (l : list (text * text)) :
  forall its, Forall (fun it => valid_item it = true) its ->
    Forall (fun it => valid_item it = true) (run_passes l its).
Proof.
  induction l as [|p l IH]; intros its Hv; [exact Hv|].
  cbn [run_passes fold_left]. apply IH. now apply pass_valid.
Qed.

(** *** The abbreviation rules run twice *)

Lemma run_passes_app (l : list (text * text)) :
  forall a b, run_passes l (a ++ b) = run_passes l a ++ run_passes l b.
Proof.
  induction l as [|p l IH]; intros a b; [reflexivity|].
  cbn [run_passes fold_left]. rewrite flat_map_app. apply IH.
Qed.

Lemma pass_unmatched (a r : text) (its : list item) :
  forallb (fun it => negb (eq_ci a (fst it))) its = true ->
  flat_map (expand_item a r) its = its.
Proof.
  induction its as [|it its IH]; intros H; [reflexivity|].
  simpl in H. apply andb_true_iff in H. destruct H as [Hi Hr].
  cbn [flat_map]. unfold expand_item at 1.
  apply negb_true_iff in Hi. rewrite Hi. simpl. now rewrite IH.
Qed.

Lemma inert_cons (p : text * text) (l : list (text * text)) (its : list item) :
  inert (p :: l) its = true ->
  forallb (fun it => negb (eq_ci (fst p) (fst it))) its = true
  /\ inert l its = true.
Proof.
  unfold inert. induction its as [|it its IH]; intros H; [split; reflexivity|].
  simpl in H. apply andb_true_iff in H. destruct H as [Hi Hr].
  destruct (IH Hr) as [H1 H2]. rewrite negb_true_iff, orb_false_iff in Hi.
  destruct Hi as [Ha Hb]. simpl. rewrite Ha, Hb, H1. simpl. split; [reflexivity|].
  exact H2.
Qed.

Lemma run_passes_inert (l : list (text * text)) (its : list item) :
  inert l its = true -> run_passes l its = its.
Proof.
  induction l as [|p l IH]; intros H; [reflexivity|].
  apply inert_cons in H. destruct H as [H1 H2].
  cbn [run_passes fold_left]. rewrite pass_unmatched by exact H1.
  now apply IH.
Qed.

Lemma inert_incl (l L : list (text * text)) (its : list item) :
  incl l L -> inert L its = true -> inert l its = true.
Proof.
  intros Hincl. unfold inert. rewrite !forallb_forall. intros H it Hit.
  specialize (H it Hit). rewrite negb_true_iff in *.
  unfold matches_any in *. destruct (existsb _ l) eqn:E; [|reflexivity].
  apply existsb_exists in E. destruct E as (p & Hp & Hm).
  rewrite <- H. symmetry. apply existsb_exists. exists p. split; [|exact Hm].
  now apply Hincl.
Qed.

Lemma items_end_words (c c' : ascii) (s : text) :
  map fst (items_end c s) = map fst (items_end c' s).
Proof.
  induction s as [|d r IH]; [reflexivity|]. simpl.
  destruct (isword d).
  - destruct (items_end c r) as [|[w e] its], (items_end c' r) as [|[w' e'] its'];
      try discriminate; [reflexivity|].
    simpl in *. inversion IH. reflexivity.
  - simpl. now rewrite IH.
Qed.

Lemma inert_words (l : list (text * text)) (its its' : list item) :
  map fst its = map fst its' -> inert l its = inert l its'.
Proof.
  unfold inert. revert its'. induction its as [|it its IH]; intros [|it' its'] H;
    try discriminate; [reflexivity|].
  simpl in H. inversion H as [[H1 H2]]. simpl. rewrite H1. f_equal. now apply IH.
Qed.

Lemma replacements_inert :
  forallb (fun p => inert abbreviations (items_end " "%char (snd p))) abbreviations
  = true.
Proof. vm_compute. reflexivity. Qed.

Lemma replacement_inert (p : text * text) (c : ascii) :
  In p abbreviations -> inert abbreviations (items_end c (snd p)) = true.
Proof.
  intros Hp. pose proof replacements_inert as H.
  rewrite forallb_forall in H. specialize (H p Hp).
  rewrite <- H. apply inert_words, items_end_words.
Qed.

Lemma run_passes_single (l : list (text * text)) :
  incl l abbreviations ->
  forall (w : text) (c : ascii),
    inert abbreviations (run_passes l [(w, c)]) = true
    \/ (run_passes l [(w, c)] = [(w, c)] /\ matches_any l w = false).
Proof.
  induction l as [|p l IH]; intros Hincl w c.
  - right. split; reflexivity.
  - assert (Hp : In p abbreviations) by (apply Hincl; now left).
    assert (Hl : incl l abbreviations) by (intros q Hq; apply Hincl; now right).
    cbn [run_passes fold_left flat_map]. rewrite app_nil_r.
    unfold expand_item. cbn [fst snd].
    destruct (eq_ci (fst p) w) eqn:E.
    + left. pose proof (replacement_inert p c Hp) as Hi.
      change (fold_left _ l ?x) with (run_passes l x).
      rewrite run_passes_inert; [exact Hi|].
      now apply (inert_incl l abbreviations).
    + change (fold_left _ l ?x) with (run_passes l x).
      destruct (IH Hl w c) as [H|[H1 H2]]; [now left|right].
      split; [exact H1|]. simpl. now rewrite E, H2.
Qed.

Lemma inert_app (l : list (text * text)) (a b : list item) :
  inert l (a ++ b) = inert l a && inert l b.
Proof. unfold inert. apply forallb_app. Qed.

Lemma run_passes_all_inert (its : list item) :
  inert abbreviations (run_passes abbreviations its) = true.
Proof.
  induction its as [|[w c] its IH]; [|].
  - assert (E : run_passes abbreviations [] = []).
    { apply run_passes_inert. reflexivity. }
    now rewrite E.
  - change ((w, c) :: its) with ([(w, c)] ++ its).
    rewrite run_passes_app, inert_app, IH, andb_true_r.
    destruct (run_passes_single abbreviations (incl_refl _) w c) as [H|[H1 H2]];
      [exact H|].
    rewrite H1. unfold inert. cbn [forallb fst]. now rewrite H2.
Qed.

Lemma run_passes_idem (its : list item) :
  run_passes abbreviations (run_passes abbreviations its)
  = run_passes abbreviations its.
Proof. apply run_passes_inert, run_passes_all_inert. Qed.

Lemma abbreviations_letters :
  Forall (fun p => letters (fst p) = true) abbreviations.
Proof.
  apply Forall_forall. intros p Hp.
  assert (H : forallb (fun p => letters (fst p)) abbreviations = true)
    by (vm_compute; reflexivity).
  rewrite forallb_forall in H. now apply H.
Qed.

(** The abbreviation rule, run twice, changes nothing more. *)
Lemma expand_abbreviations_idem (its : list item) :
  Forall (fun it => valid_item it = true) its ->
  expand_abbreviations (expand_abbreviations (flat its))
  = expand_abbreviations (flat its).
Proof.
  intros Hv. unfold expand_abbreviations.
  rewrite (expand_items abbreviations abbreviations_letters its Hv).
  rewrite (expand_items abbreviations abbreviations_letters _
             (run_passes_valid abbreviations its Hv)).
  now rewrite run_passes_idem.
Qed.

(** *** The characters kept by the abbreviation rules *)

Lemma sub_from_forallb (m : Re.matcher) (P : ascii -> bool) :
  (forall prev t out n, m prev t = Some (out, n) -> forallb P out = true) ->
  forall s prev k, forallb P s = true -> forallb P (Re.sub_from m prev k s) = true.
Proof.
  intros Hm. induction s as [|c r IH]; intros prev k Hs; [reflexivity|].
  simpl in Hs. apply andb_true_iff in Hs. destruct Hs as [Hc Hr].
  cbn [Re.sub_from]. destruct k as [|k]; [|now apply IH].
  destruct (m prev (c :: r)) as [[out n]|] eqn:E.
  - rewrite forallb_app, (Hm _ _ _ _ E). now apply IH.
  - simpl. rewrite Hc. now apply IH.
Qed.

Lemma whole_word_out (a r : text) (prev : option ascii) (t out : text) (n : nat) :
  Re.whole_word a r prev t = Some (out, n) -> out = r.
Proof.
  unfold Re.whole_word. destruct (_ && _ && _); [|discriminate].
  intros H. now inversion H.
Qed.

Lemma expand_forallb (P : ascii -> bool) (l : list (text * text)) :
  forallb (fun p => forallb P (snd p)) l = true ->
  forall s, forallb P s = true ->
    forallb P (fold_left (fun t p => Re.sub (Re.whole_word (fst p) (snd p)) t) l s)
    = true.
Proof.
  induction l as [|p l IH]; intros Hl s Hs; [exact Hs|].
  simpl in Hl. apply andb_true_iff in Hl. destruct Hl as [Hp Hl].
  cbn [fold_left]. apply IH; [exact Hl|]. unfold Re.sub.
  apply sub_from_forallb; [|exact Hs].
  intros prev t out n E. apply whole_word_out in E. now subst out.
Qed.


(** *** Leading characters outside the words *)





(** *** Spacing *)











Lemma forallb_lstrip (P : ascii -> bool) (s : text) :
  forallb P s = true -> forallb P (lstrip s) = true.
Proof.
  induction s as [|c r IH]; intros H; [reflexivity|].
  simpl. destruct (isspace c); [|exact H].
  simpl in H. apply andb_true_iff in H. apply IH, H.
Qed.

(** *** The numbered-list rule at the start of a text *)



Lemma span_app_all (P : ascii -> bool) (w t : text) :
  forallb P w = true -> Re.span P (w ++ t) = length w + Re.span P t.
Proof.
  induction w as [|c r IH]; intros H; [reflexivity|].
  simpl in *. apply andb_true_iff in H. destruct H as [Hc Hr].
  rewrite Hc. now rewrite IH.
Qed.












(** *** The last character *)








(** *** Idempotence *)





(** The amendment adds to the conditions of the claim that the
    numbered-list rule finds nothing at the start. *)
Lemma clean_plain_text_worded (x : text) :
  clean_plain_text x = plain_text_as_worded x && negb (is_numbered x).
Proof.
  unfold clean_plain_text, plain_text_as_worded.
  destruct (forallb plain_char x), (tidy_from false x), (is_numbered x),
    (ends_sentence x); reflexivity.
Qed.



Example clean_sample :
  clean_text_for_audio sample_clean_text
  = lit "The A P I of the Machine Learning team is ready.".
Proof. vm_compute. reflexivity. Qed.

(** A list number at the start is markup: the text is not clean, and
    each run of the sanitiser removes one more number. *)
Example numbered_text_is_not_clean :
  clean_plain_text version_text = false
  /\ clean_text_for_audio version_text = lit "2.3 is out."
  /\ clean_text_for_audio (lit "2.3 is out.") = lit "3 is out.".
Proof. repeat split; vm_compute; reflexivity. Qed.

(** * Further properties *)

(** ** Properties of the chunker *)

Section ChunkerFacts.

Variable World : Type.
Variable split_documents : nat -> nat -> list Document -> Exn + list Document.

Local Abbreviation chunk := (chunk_documents (World := World) split_documents).

(** X1: when the splitter returns, [chunk_documents] returns the split
    documents whose trimmed content is longer than 50 characters, in
    their order, and logs their number: no chunk of 50 characters or
    fewer is returned, and none is added. *)
Theorem chunk_documents_keeps_long_chunks (docs split_docs : list Document)
    (ct : ContentType) (st : State World) :
  split_documents (fst (chunking_config ct)) (snd (chunking_config ct)) docs
  = inr split_docs ->
  exists chunks,
    chunk docs ct st
    = (inr chunks,
       mkState (world st)
         (trace st
          ++ [LogInfo (lit "Created " ++ str_of_Z (Z.of_nat (length chunks))
                       ++ lit " chunks from " ++ str_of_Z (Z.of_nat (length docs))
                       ++ lit " documents")]))
    /\ chunks = filter long_chunk split_docs
    /\ Forall (fun doc => 50 < length (strip (page_content doc))) chunks
    /\ length chunks <= length split_docs.
Proof.
  intros H. exists (filter long_chunk split_docs).
  split; [|split; [reflexivity|split]].
  - unfold chunk_documents. destruct ct; cbn [chunking_config fst snd] in H;
      rewrite H; reflexivity.
  - apply Forall_forall. intros d Hd. apply filter_In in Hd.
    destruct Hd as [_ Hd]. unfold long_chunk in Hd. now apply Nat.ltb_lt.
  - apply filter_length_le.
Qed.

(** X2: when the splitter raises, [chunk_documents] does not raise: it
    logs the error and returns the documents it was given, unchanged. *)
Theorem chunk_documents_falls_back (docs : list Document) (ct : ContentType)
    (st : State World) (e : Exn) :
  split_documents (fst (chunking_config ct)) (snd (chunking_config ct)) docs
  = inl e ->
  chunk docs ct st
  = (inr docs,
     mkState (world st)
       (trace st ++ [LogError (lit "Error in document chunking: " ++ exn_msg e)])).
Proof.
  intros H. unfold chunk_documents. destruct ct; cbn [chunking_config fst snd] in H;
    rewrite H; reflexivity.
Qed.

End ChunkerFacts.

Lemma chunk_documents_keeps_long_chunks_witness :
  identity_splitter (fst (chunking_config general)) (snd (chunking_config general))
    sample_docs = inr sample_docs
  /\ exists chunks,
       chunk_documents identity_splitter sample_docs general initial_state
       = (inr chunks,
          mkState (world initial_state)
            (trace initial_state
             ++ [LogInfo (lit "Created " ++ str_of_Z (Z.of_nat (length chunks))
                          ++ lit " chunks from "
                          ++ str_of_Z (Z.of_nat (length sample_docs))
                          ++ lit " documents")]))
       /\ chunks = filter long_chunk sample_docs
       /\ Forall (fun doc => 50 < length (strip (page_content doc))) chunks
       /\ length chunks <= length sample_docs.
Proof.
  split; [reflexivity|].
  apply (chunk_documents_keeps_long_chunks unit identity_splitter sample_docs
           sample_docs general initial_state).
  reflexivity.
Defined.

Lemma chunk_documents_falls_back_witness :
  failing_splitter splitter_error (fst (chunking_config technical))
    (snd (chunking_config technical)) sample_docs = inl splitter_error
  /\ chunk_documents (failing_splitter splitter_error) sample_docs technical
       initial_state
     = (inr sample_docs,
        mkState (world initial_state)
          (trace initial_state
           ++ [LogError (lit "Error in document chunking: "
                         ++ exn_msg splitter_error)])).
Proof.
  split; [reflexivity|].
  apply (chunk_documents_falls_back unit (failing_splitter splitter_error)
           sample_docs technical initial_state splitter_error).
  reflexivity.
Defined.

(** ** Properties of the retry loop *)

Section RetryFacts.

Variable World : Type.
Variable llm : text -> World -> (Exn + text) * World.
Variable split_documents : nat -> nat -> list Document -> Exn + list Document.
Variable document_separator : text.

Local Abbreviation St := (State World).
Local Abbreviation attempt := (attempt_body llm split_documents document_separator).
Local Abbreviation loop := (retry_loop llm split_documents document_separator).
Local Abbreviation summarize := (summarize_chain llm split_documents document_separator).

Section Loop.

Variable docs : list Document.
Variable ct : ContentType.
Variable tokens : Z.
Variable prompts : PromptSet.

Lemma retry_loop_first_success (max_retries : Z) (k : nat) (i : Z)
    (st st1 : St) (errs : list Exn) :
  failed_attempts (attempt docs ct tokens prompts) k i st errs st1 ->
  forall (remaining : nat) (s : text) (st2 : St),
    attempt docs ct tokens prompts st1 = (inr s, st2) ->
    k < remaining ->
    max_retries = (i + Z.of_nat remaining)%Z ->
    loop docs ct tokens prompts max_retries remaining i st = (inr s, st2).
Proof.
  induction 1 as [i st|n i st st1 st2 e es Hb Hf IH];
    intros remaining s st3 Hs Hk Hmax.
  - destruct remaining as [|r]; [lia|]. cbn [retry_loop]. unfold try_except.
    now rewrite Hs.
  - destruct remaining as [|r]; [lia|]. cbn [retry_loop]. unfold try_except.
    rewrite Hb. unfold bind, logger_warning. rewrite emit_run.
    destruct (Z.eqb_spec i (max_retries - 1)) as [Hi|Hi]; [lia|].
    apply IH; [exact Hs|lia|lia].
Qed.

(** In the single pass every attempt sends the same one prompt. *)
Lemma attempt_single_pass_calls (st : St) :
  (tokens < MAX_TOKENS)%Z ->
  llm_calls (trace (snd (attempt docs ct tokens prompts st)))
  = llm_calls (trace st)
    ++ [format_prompt (stuff_prompt prompts)
          (join document_separator (map page_content docs))].
Proof.
  intros Hlt. unfold attempt_body, run_chain.
  rewrite (proj2 (Z.ltb_lt _ _) Hlt).
  unfold bind at 1. unfold bind at 1. unfold logger_info, stuff_chain.
  rewrite emit_run, invoke_run.
  destruct (fst (llm _ _)) as [e|r].
  - cbn [snd trace]. rewrite !llm_calls_app. simpl. now rewrite app_nil_r.
  - match goal with
    | |- context [validate r ?s0] =>
        assert (Hv : snd (validate r s0) = s0)
    end.
    { unfold validate. destruct r; [reflexivity|].
      destruct (_ <? 50); reflexivity. }
    rewrite Hv. cbn [trace]. rewrite !llm_calls_app. simpl. now rewrite app_nil_r.
Qed.

Lemma retry_loop_single_pass_calls (max_retries : Z) :
  (tokens < MAX_TOKENS)%Z ->
  forall (remaining : nat) (i : Z) (st : St),
  exists n,
    n <= remaining /\ (remaining <> 0 -> 1 <= n)
    /\ llm_calls (trace (snd (loop docs ct tokens prompts max_retries remaining i st)))
       = llm_calls (trace st)
         ++ repeat (format_prompt (stuff_prompt prompts)
                      (join document_separator (map page_content docs))) n.
Proof.
  intros Hlt. induction remaining as [|r IH]; intros i st.
  - exists 0. cbn [retry_loop]. unfold ret. simpl. rewrite app_nil_r.
    repeat split; [lia|congruence].
  - cbn [retry_loop]. unfold try_except.
    pose proof (attempt_single_pass_calls st Hlt) as Hc.
    destruct (attempt docs ct tokens prompts st) as [[e|s] st1].
    + unfold bind, logger_warning. rewrite emit_run. cbn [snd] in Hc.
      destruct (i =? max_retries - 1)%Z.
      * exists 1. unfold raise. cbn [snd trace]. rewrite llm_calls_app, Hc.
        simpl. rewrite app_nil_r. repeat split; lia.
      * destruct (IH (i + 1)%Z
                    (mkState (world st1)
                       (trace st1 ++ [LogWarning (attempt_failed i e)])))
          as (n & Hn & _ & Hcalls).
        exists (S n). rewrite Hcalls. cbn [trace]. rewrite llm_calls_app, Hc.
        simpl. rewrite app_nil_r, <- app_assoc. repeat split; lia.
    + exists 1. cbn [snd] in *. rewrite Hc. repeat split; lia.
Qed.

End Loop.

Lemma loop_start_calls (docs : list Document) (st : St) :
  llm_calls (trace (loop_start docs st)) = llm_calls (trace st).
Proof.
  unfold loop_start. cbn [trace]. rewrite !llm_calls_app. simpl.
  now rewrite !app_nil_r.
Qed.

(** X3: on documents that are not all blank, if the first [k] attempts
    fail and the next one succeeds, with [k] below [max_retries], then
    [summarize_chain] returns the summary of that attempt, in the state
    that attempt leaves: no attempt is made after the first success. *)
Theorem summarize_stops_at_first_success (docs : list Document)
    (max_retries : Z) (st st1 st2 : St) (k : nat) (errs : list Exn) (s : text) :
  filter nonblank docs <> [] ->
  failed_attempts
    (attempt (filter nonblank docs)
       (detect_content_type (filter nonblank docs))
       (estimate_tokens
          (join (lit " ") (map page_content (filter nonblank docs))))
       (create_enhanced_prompts (detect_content_type (filter nonblank docs))))
    k 0 (loop_start docs st) errs st1 ->
  attempt (filter nonblank docs)
    (detect_content_type (filter nonblank docs))
    (estimate_tokens
       (join (lit " ") (map page_content (filter nonblank docs))))
    (create_enhanced_prompts (detect_content_type (filter nonblank docs)))
    st1 = (inr s, st2) ->
  (Z.of_nat k < max_retries)%Z ->
  summarize docs max_retries st = (inr s, st2).
Proof.
  intros Hne Hf Hs Hk.
  rewrite (summarize_chain_loop World llm split_documents document_separator
             docs max_retries st Hne).
  eapply retry_loop_first_success; eauto; lia.
Qed.

(** X4: on documents that are not all blank whose estimate is under
    [MAX_TOKENS], every invocation of the model by [summarize_chain]
    sends the same prompt, the single-pass template formatted with the
    joined contents; there are at most [max_retries] invocations, and at
    least one when [max_retries] is positive.  The single-pass chain is
    the modelled one: one invocation on the formatted prompt. *)
Theorem summarize_single_pass_calls (docs : list Document)
    (max_retries : Z) (st : St) :
  filter nonblank docs <> [] ->
  (estimate_tokens (join (lit " ") (map page_content (filter nonblank docs)))
   < MAX_TOKENS)%Z ->
  exists n,
    n <= Z.to_nat max_retries
    /\ ((1 <= max_retries)%Z -> 1 <= n)
    /\ llm_calls (trace (snd (summarize docs max_retries st)))
       = llm_calls (trace st)
         ++ repeat
              (format_prompt
                 (stuff_prompt
                    (create_enhanced_prompts
                       (detect_content_type (filter nonblank docs))))
                 (join document_separator
                    (map page_content (filter nonblank docs)))) n.
Proof.
  intros Hne Hlt.
  rewrite (summarize_chain_loop World llm split_documents document_separator
             docs max_retries st Hne).
  destruct (retry_loop_single_pass_calls (filter nonblank docs)
              (detect_content_type (filter nonblank docs)) _
              (create_enhanced_prompts (detect_content_type (filter nonblank docs)))
              max_retries Hlt (Z.to_nat max_retries) 0 (loop_start docs st))
    as (n & Hn & Hpos & Hc).
  exists n. split; [exact Hn|]. split; [intros H; apply Hpos; lia|].
  now rewrite Hc, loop_start_calls.
Qed.

End RetryFacts.

Lemma summarize_stops_at_first_success_witness :
  filter nonblank sample_docs <> []
  /\ failed_attempts flaky_attempt 2 0 (loop_start sample_docs (mkState 0 []))
       [rate_limited; rate_limited] flaky_after_two
  /\ flaky_attempt flaky_after_two
     = (inr (strip structured_answer), snd (flaky_attempt flaky_after_two))
  /\ (Z.of_nat 2 < 3)%Z
  /\ summarize_chain (flaky_llm rate_limited structured_answer)
       identity_splitter paragraph_break sample_docs 3 (mkState 0 [])
     = (inr (strip structured_answer), snd (flaky_attempt flaky_after_two)).
Proof.
  assert (Hne : filter nonblank sample_docs <> [])
    by (intros H; vm_compute in H; discriminate H).
  assert (Hk : (Z.of_nat 2 < 3)%Z) by reflexivity.
  assert (Hf : failed_attempts flaky_attempt 2 0
                 (loop_start sample_docs (mkState 0 []))
                 [rate_limited; rate_limited] flaky_after_two).
  { eapply failed_next
      with (st1 := snd (flaky_attempt (loop_start sample_docs (mkState 0 [])))).
    - vm_compute. reflexivity.
    - eapply failed_next with (st1 := snd (flaky_attempt flaky_after_one)).
      + vm_compute. reflexivity.
      + apply failed_none. }
  assert (Hs : flaky_attempt flaky_after_two
               = (inr (strip structured_answer),
                  snd (flaky_attempt flaky_after_two)))
    by (vm_compute; reflexivity).
  split; [exact Hne|]. split; [exact Hf|]. split; [exact Hs|]. split; [exact Hk|].
  exact (summarize_stops_at_first_success nat
           (flaky_llm rate_limited structured_answer) identity_splitter
           paragraph_break sample_docs 3 (mkState 0 []) flaky_after_two
           (snd (flaky_attempt flaky_after_two)) 2
           [rate_limited; rate_limited] (strip structured_answer)
           Hne Hf Hs Hk).
Defined.

Lemma summarize_single_pass_calls_witness :
  filter nonblank sample_docs <> []
  /\ (estimate_tokens
        (join (lit " ") (map page_content (filter nonblank sample_docs)))
      < MAX_TOKENS)%Z
  /\ exists n,
       n <= Z.to_nat 3
       /\ ((1 <= 3)%Z -> 1 <= n)
       /\ llm_calls
            (trace (snd (summarize_chain (flaky_llm rate_limited structured_answer)
                           identity_splitter paragraph_break sample_docs 3
                           (mkState 0 []))))
          = llm_calls (trace (mkState 0 []))
            ++ repeat
                 (format_prompt
                    (stuff_prompt
                       (create_enhanced_prompts
                          (detect_content_type (filter nonblank sample_docs))))
                    (join paragraph_break
                       (map page_content (filter nonblank sample_docs)))) n.
Proof.
  assert (Hne : filter nonblank sample_docs <> [])
    by (intros H; vm_compute in H; discriminate H).
  assert (Hlt : (estimate_tokens
                   (join (lit " ") (map page_content (filter nonblank sample_docs)))
                 < MAX_TOKENS)%Z) by reflexivity.
  split; [exact Hne|]. split; [exact Hlt|].
  exact (summarize_single_pass_calls nat
           (flaky_llm rate_limited structured_answer) identity_splitter
           paragraph_break sample_docs 3 (mkState 0 []) Hne Hlt).
Defined.

(** The flaky model is invoked three times, with the same prompt. *)
Example flaky_run_calls :
  length (llm_calls
            (trace (snd (summarize_chain (flaky_llm rate_limited structured_answer)
                           identity_splitter paragraph_break sample_docs 3
                           (mkState 0 []))))) = 3.
Proof. vm_compute. reflexivity. Qed.

(** ** Bounds of the token estimate and the quality check *)

(** A word takes a character, and a separator stands between two words. *)
Lemma split_from_length_bound (s cur : text) :
  2 * length (split_from cur s)
  <= length s + match cur with [] => 1 | _ => 2 end.
Proof.
  revert cur. induction s as [|c r IH]; intros cur.
  - destruct cur; simpl; lia.
  - simpl. destruct (isspace c).
    + specialize (IH []). destruct cur; simpl in *; lia.
    + specialize (IH (c :: cur)). destruct cur; simpl in *; lia.
Qed.

Lemma split_length_bound (t : text) : 2 * length (split t) <= length t + 1.
Proof. apply (split_from_length_bound t []). Qed.

(** X5: the estimate of a text lies between a seventh of its number of
    characters and [(131 * characters + 91) / 280].  Hence a text of at
    most 12824 characters is always under the budget of 6000 tokens,
    whatever its words, and a text of 42000 characters or more never
    is. *)
Theorem estimate_tokens_thresholds (t : text) :
  (Z.of_nat (length t) / 7 <= estimate_tokens t)%Z
  /\ (estimate_tokens t <= (131 * Z.of_nat (length t) + 91) / 280)%Z
  /\ ((Z.of_nat (length t) <= 12824)%Z -> (estimate_tokens t < MAX_TOKENS)%Z)
  /\ ((42000 <= Z.of_nat (length t))%Z -> (MAX_TOKENS <= estimate_tokens t)%Z).
Proof.
  rewrite estimate_tokens_closed. pose proof (split_length_bound t) as Hw.
  set (w := Z.of_nat (length (split t))) in *.
  set (c := Z.of_nat (length t)) in *.
  assert (Hw' : (0 <= w /\ 2 * w <= c + 1)%Z) by (unfold w, c; lia).
  clearbody w c. unfold MAX_TOKENS.
  repeat split.
  - apply Z.div_le_lower_bound; [lia|].
    pose proof (Z.mul_div_le c 7 ltac:(lia)). lia.
  - apply Z.div_le_lower_bound; [lia|].
    pose proof (Z.mul_div_le (91 * w + 20 * c) 140 ltac:(lia)). lia.
  - intros Hc. apply Z.div_lt_upper_bound; lia.
  - intros Hc. apply Z.div_le_lower_bound; lia.
Qed.

(** The first bound is tight: a text of 12825 characters that is
    estimated at 6000 tokens. *)
Example dense_text_estimate :
  length dense_text = 12825 /\ estimate_tokens dense_text = 6000%Z.
Proof. split; vm_compute; reflexivity. Qed.

Section QualityFacts.

Variable World : Type.

(** X6: a summary that [validate_summary_quality] accepts has, once
    trimmed, between 100 and 10000 characters, a structure marker and at
    least 50 words; the length test of [summarize_chain] (lines 288-292)
    accepts it too and returns it trimmed. *)
Theorem quality_implies_gate (summary : text) :
  fst (validate_summary_quality summary) = true ->
  100 <= length (strip summary)
  /\ length (strip summary) <= 10000
  /\ has_structure_marker (strip summary) = true
  /\ 50 <= length (split (strip summary))
  /\ forall st : State World, validate summary st = (inr (strip summary), st).
Proof.
  unfold validate_summary_quality. destruct summary as [|c r]; [discriminate|].
  set (s := strip (c :: r)).
  destruct (Nat.ltb_spec (length s) 100) as [H1|H1]; [discriminate|].
  destruct (Nat.ltb_spec 10000 (length s)) as [H2|H2]; [discriminate|].
  destruct (has_structure_marker s) eqn:H3; [|discriminate].
  destruct (Nat.ltb_spec (length (split s)) 50) as [H4|H4]; [discriminate|].
  intros _. repeat split; try assumption.
  intros st. unfold validate. fold s.
  destruct (Nat.ltb_spec (length s) 50) as [H5|H5]; [|reflexivity].
  clear H2. lia.
Qed.

(** The verdict is that of the trimmed summary. *)
Lemma quality_of_trimmed (summary : text) :
  fst (validate_summary_quality summary)
  = fst (validate_summary_quality (strip summary)).
Proof.
  unfold validate_summary_quality. destruct summary as [|c r]; [reflexivity|].
  destruct (strip (c :: r)) as [|d u] eqn:E; [reflexivity|].
  rewrite <- E, strip_idem.
  destruct (_ <? 100); [reflexivity|].
  destruct (_ <? _); [reflexivity|].
  destruct (negb _); [reflexivity|].
  destruct (_ <? 50); reflexivity.
Qed.

End QualityFacts.

Lemma quality_implies_gate_witness :
  fst (validate_summary_quality structured_answer) = true
  /\ 100 <= length (strip structured_answer)
  /\ length (strip structured_answer) <= 10000
  /\ has_structure_marker (strip structured_answer) = true
  /\ 50 <= length (split (strip structured_answer))
  /\ forall st : State unit,
       validate structured_answer st = (inr (strip structured_answer), st).
Proof.
  split; [vm_compute; reflexivity|].
  apply (quality_implies_gate unit structured_answer).
  vm_compute. reflexivity.
Defined.

(** ** The characters of a sanitised text *)

(** A rule that deletes or replaces every character of a class leaves
    none of them. *)
Lemma sub_one_of_none (cls : ascii -> bool) (s : text) :
  forall prev k,
    forallb (fun c => negb (cls c)) (Re.sub_from (Re.one_of cls []) prev k s) = true.
Proof.
  induction s as [|c r IH]; intros prev k; [reflexivity|].
  cbn [Re.sub_from]. destruct k as [|k]; [|apply IH].
  unfold Re.one_of at 1. destruct (cls c) eqn:E.
  - cbn [app]. apply IH.
  - simpl. rewrite E. apply IH.
Qed.

Lemma sub_run_of_none (cls : ascii -> bool) (repl : text) (s : text) :
  forallb (fun c => negb (cls c)) repl = true ->
  forall prev k,
    forallb (fun c => negb (cls c))
      (Re.sub_from (Re.run_of cls 1 repl) prev k s) = true.
Proof.
  intros Hr. induction s as [|c r IH]; intros prev k; [reflexivity|].
  cbn [Re.sub_from]. destruct k as [|k]; [|apply IH].
  unfold Re.run_of at 1. cbn [Re.span]. destruct (cls c) eqn:E.
  - cbn [Nat.leb andb]. rewrite forallb_app, Hr. apply IH.
  - cbn [Nat.leb andb]. simpl. rewrite E. apply IH.
Qed.

(** A rule whose replacements are made of kept characters keeps a text
    made of them so. *)
Lemma sub_forallb (m : Re.matcher) (P : ascii -> bool) (s : text) :
  (forall prev t out n, m prev t = Some (out, n) -> forallb P out = true) ->
  forallb P s = true -> forallb P (Re.sub m s) = true.
Proof. intros Hm Hs. unfold Re.sub. now apply sub_from_forallb. Qed.

Lemma numbered_out (prev : option ascii) (t out : text) (n : nat) :
  Re.numbered prev t = Some (out, n) -> out = [].
Proof.
  unfold Re.numbered. destruct (Re.at_line_start prev); [|discriminate].
  destruct (Re.span isdigit _); [discriminate|].
  destruct (skipn _ _) as [|c s2]; [discriminate|].
  destruct (Re.ch "." c); [|discriminate]. intros H. now inversion H.
Qed.

Lemma bullet_out (cls : ascii -> bool) (prev : option ascii) (t out : text) (n : nat) :
  Re.bullet cls prev t = Some (out, n) -> out = [].
Proof.
  unfold Re.bullet. destruct (Re.at_line_start prev); [|discriminate].
  destruct (skipn _ _) as [|c s2]; [discriminate|].
  destruct (cls c); [|discriminate]. intros H. now inversion H.
Qed.

Lemma unended_line_out (repl : text) (prev : option ascii) (t out : text) (n : nat) :
  Re.unended_line repl prev t = Some (out, n) -> out = repl.
Proof.
  unfold Re.unended_line. destruct prev; [|discriminate].
  destruct t; [discriminate|]. destruct (_ && _); [|discriminate].
  intros H. now inversion H.
Qed.

Lemma run_of_out (cls : ascii -> bool) (least : nat) (repl : text)
    (prev : option ascii) (t out : text) (n : nat) :
  Re.run_of cls least repl prev t = Some (out, n) -> out = repl.
Proof.
  unfold Re.run_of. destruct (_ && _); [|discriminate].
  intros H. now inversion H.
Qed.

Lemma forallb_weaken (P Q : ascii -> bool) (s : text) :
  (forall c, P c = true -> Q c = true) ->
  forallb P s = true -> forallb Q s = true.
Proof.
  intros H. rewrite !forallb_forall. auto.
Qed.

Lemma forallb_and (P Q : ascii -> bool) (s : text) :
  forallb P s = true -> forallb Q s = true ->
  forallb (fun c => P c && Q c) s = true.
Proof.
  rewrite !forallb_forall. intros HP HQ c Hc. now rewrite HP, HQ.
Qed.

Lemma remove_markup_no_special (t : text) :
  forallb (fun c => negb (special_char c)) (remove_markup t) = true.
Proof.
  unfold remove_markup.
  apply sub_forallb; [intros prev s out n H; apply bullet_out in H; now subst|].
  apply sub_forallb; [intros prev s out n H; apply numbered_out in H; now subst|].
  apply sub_one_of_none.
Qed.

Lemma fix_sentences_speakable (t : text) :
  forallb (fun c => negb (special_char c)) t = true ->
  forallb speakable (fix_sentences t) = true.
Proof.
  intros Ht. unfold fix_sentences.
  assert (Hp : forallb (fun c => negb (special_char c))
                 (Re.sub (Re.unended_line (lit ". ")) t) = true).
  { apply sub_forallb; [|exact Ht].
    intros prev s out n H. apply unended_line_out in H. now subst. }
  set (t1 := Re.sub (Re.unended_line (lit ". ")) t) in *.
  assert (Hq : forallb speakable (Re.sub (Re.run_of (Re.ch nl) 1 (lit " ")) t1) = true).
  { unfold speakable, unspeakable.
    apply (forallb_weaken
             (fun c => negb (special_char c) && negb (Re.ch nl c))).
    - intros c. unfold Re.ch. rewrite andb_true_iff, !negb_true_iff.
      intros [H1 H2]. rewrite H1. simpl.
      destruct (char_eqb c nl) eqn:E; [|reflexivity].
      apply Ascii.eqb_eq in E. subst c. discriminate.
    - apply forallb_and.
      + apply sub_forallb; [|exact Hp].
        intros prev s out n H. apply run_of_out in H. now subst.
      + apply sub_run_of_none. reflexivity. }
  apply sub_forallb; [|exact Hq].
  intros prev s out n H. apply run_of_out in H. now subst.
Qed.

Lemma forallb_rstrip (P : ascii -> bool) (s : text) :
  forallb P s = true -> forallb P (rstrip s) = true.
Proof.
  induction s as [|c r IH]; intros H; [reflexivity|].
  simpl in H. apply andb_true_iff in H. destruct H as [Hc Hr].
  rewrite rstrip_cons. specialize (IH Hr).
  destruct (rstrip r) as [|a l].
  - destruct (isspace c); [reflexivity|]. simpl. now rewrite Hc.
  - simpl in *. now rewrite Hc, IH.
Qed.

(** X7: for every text, the result of [clean_text_for_audio] holds none
    of the characters of the special-character rule of line 315 (hash,
    star, underscore, greater-than, backquote, hyphen) and no line feed,
    and has no white space at either end. *)
Theorem clean_text_is_speakable (t : text) :
  forallb speakable (clean_text_for_audio t) = true
  /\ strip (clean_text_for_audio t) = clean_text_for_audio t.
Proof.
  unfold clean_text_for_audio. destruct t as [|c r]; [split; reflexivity|].
  split; [|apply strip_idem].
  unfold strip. apply forallb_rstrip, forallb_lstrip.
  unfold expand_abbreviations. apply expand_forallb; [vm_compute; reflexivity|].
  apply fix_sentences_speakable, remove_markup_no_special.
Qed.

(** ** The abbreviation rules on every text *)

(** A character outside the words, put after the text, changes nothing
    before it. *)
Lemma ends_at_snoc (a : text) (c : ascii) :
  forallb isletter a = true -> isword c = false ->
  forall (t : text) (last : option ascii),
    ends_at a last (t ++ [c]) = ends_at a last t.
Proof.
  intros Ha Hc. induction a as [|a0 a' IH]; intros t last.
  - destruct t as [|d t']; [|reflexivity].
    simpl. unfold Re.word_boundary. simpl. now rewrite Hc.
  - simpl in Ha. apply andb_true_iff in Ha. destruct Ha as [Ha0 Ha'].
    destruct t as [|d t']; simpl.
    + now rewrite (letter_ci_word a0 c Ha0 Hc).
    + now rewrite (IH Ha').
Qed.

Lemma startswith_ci_length (a s : text) :
  Re.startswith_ci a s = true -> length a <= length s.
Proof.
  revert s. induction a as [|a0 a' IH]; intros s H; [simpl; lia|].
  destruct s as [|d s']; [discriminate|]. simpl in H.
  apply andb_true_iff in H. destruct H as [_ H]. apply IH in H. simpl. lia.
Qed.

Section Sentinel.

Variables a r : text.
Hypothesis a_letters : letters a = true.

Lemma whole_word_snoc (c : ascii) (prev : option ascii) (d : ascii) (t : text) :
  isword c = false ->
  Re.whole_word a r prev ((d :: t) ++ [c]) = Re.whole_word a r prev (d :: t).
Proof.
  intros Hc. unfold Re.whole_word. rewrite <- !andb_assoc.
  rewrite (match_ends_at a (a_nonempty a r a_letters) ((d :: t) ++ [c]) None).
  rewrite (match_ends_at a (a_nonempty a r a_letters) (d :: t) None).
  now rewrite (ends_at_snoc a c (a_all_letters a r a_letters) Hc).
Qed.

Lemma whole_word_length (prev : option ascii) (s out : text) (n : nat) :
  Re.whole_word a r prev s = Some (out, n) -> n <= length s.
Proof.
  unfold Re.whole_word. destruct (_ && _ && _) eqn:E; [|discriminate].
  intros H. inversion H. subst. rewrite !andb_true_iff in E.
  now apply startswith_ci_length.
Qed.

Lemma sub_from_snoc (c : ascii) :
  isword c = false ->
  forall (t : text) (prev : option ascii) (k : nat),
    k <= length t ->
    Re.sub_from (Re.whole_word a r) prev k (t ++ [c])
    = Re.sub_from (Re.whole_word a r) prev k t ++ [c].
Proof.
  intros Hc. induction t as [|d t IH]; intros prev k Hk.
  - assert (k = 0) by (simpl in Hk; lia). subst k.
    cbn [app]. rewrite (pass_nonword a r a_letters prev c [] Hc). reflexivity.
  - destruct k as [|k].
    + change (Re.sub_from (Re.whole_word a r) prev 0 ((d :: t) ++ [c]))
        with (match Re.whole_word a r prev ((d :: t) ++ [c]) with
              | Some (out, n) =>
                  out ++ Re.sub_from (Re.whole_word a r) (Some d) (n - 1) (t ++ [c])
              | None => d :: Re.sub_from (Re.whole_word a r) (Some d) 0 (t ++ [c])
              end).
      rewrite (whole_word_snoc c prev d t Hc). cbn [Re.sub_from].
      destruct (Re.whole_word a r prev (d :: t)) as [[out n]|] eqn:E.
      * apply whole_word_length in E. simpl in E.
        rewrite IH by lia. now rewrite app_assoc.
      * rewrite IH by lia. reflexivity.
    + cbn [app Re.sub_from]. apply IH. simpl in Hk. lia.
Qed.

End Sentinel.

Lemma expand_snoc (l : list (text * text)) :
  Forall (fun p => letters (fst p) = true) l ->
  forall (t : text) (c : ascii), isword c = false ->
    fold_left (fun t p => Re.sub (Re.whole_word (fst p) (snd p)) t) l (t ++ [c])
    = fold_left (fun t p => Re.sub (Re.whole_word (fst p) (snd p)) t) l t ++ [c].
Proof.
  induction 1 as [|p l Hp _ IH]; intros t c Hc; [reflexivity|].
  cbn [fold_left]. unfold Re.sub at 2 4.
  rewrite (sub_from_snoc (fst p) (snd p) Hp c Hc t None 0) by lia.
  now apply IH.
Qed.

(** X8: the abbreviation rules of [clean_text_for_audio] (lines 325-343)
    are idempotent on every text: expanding an expanded text changes
    nothing. *)
Theorem expand_abbreviations_idempotent (t : text) :
  expand_abbreviations (expand_abbreviations t) = expand_abbreviations t.
Proof.
  assert (Hdot : isword "."%char = false) by reflexivity.
  pose proof (expand_abbreviations_idem (items_end "."%char t)
                (items_end_valid "."%char t Hdot)) as H.
  rewrite flat_items_end in H. unfold expand_abbreviations in *.
  rewrite (expand_snoc abbreviations abbreviations_letters t "."%char Hdot) in H.
  rewrite (expand_snoc abbreviations abbreviations_letters _ "."%char Hdot) in H.
  now apply app_inv_tail in H.
Qed.

(** ** Properties of the extraction of video identifiers *)

Example extract_samples :
  extract_youtube_video_id sample_url = Some (lit "dQw4w9WgXcQ")
  /\ extract_youtube_video_id (lit "  https://youtu.be/dQw4w9WgXcQ?si=abc ")
     = Some (lit "dQw4w9WgXcQ")
  /\ extract_youtube_video_id (lit "https://www.youtube.com/watch?feature=share&v=dQw4w9WgXcQ")
     = Some (lit "dQw4w9WgXcQ")
  /\ extract_youtube_video_id (lit "https://example.com/watch?v=dQw4w9WgXcQ") = None
  /\ validate_youtube_url sample_url = (true, lit "Valid YouTube URL")
  /\ validate_youtube_url (lit "https://YOUTUBE.com/watch?v=dQw4w9WgXcQ")
     = (false, lit "Could not extract video ID from URL")
  /\ validate_youtube_url (lit "https://youtu.be/short")
     = (false, lit "Invalid video ID format").
Proof. repeat split; vm_compute; reflexivity. Qed.

Lemma search_found (m : text -> option text) (s g : text) :
  search m s = Some g -> exists t, m t = Some g.
Proof.
  induction s as [|c r IH]; simpl.
  - destruct (m []) eqn:E; [|discriminate]. intros H. inversion H. subst.
    now exists [].
  - destruct (m (c :: r)) eqn:E.
    + intros H. inversion H. subst. now exists (c :: r).
    + exact IH.
Qed.

Lemma span_firstn (P : ascii -> bool) (s : text) :
  forallb P (firstn (Re.span P s) s) = true.
Proof.
  induction s as [|c r IH]; [reflexivity|]. simpl.
  destruct (P c) eqn:E; [|reflexivity]. simpl. now rewrite E.
Qed.

Lemma id_group_chars (s g : text) :
  id_group s = Some g -> g <> [] /\ forallb id_char g = true.
Proof.
  unfold id_group. pose proof (span_firstn id_char s) as Hf.
  destruct s as [|c r]; [discriminate|].
  destruct (Re.span id_char (c :: r)) as [|n]; [discriminate|].
  intros H. injection H as H. rewrite <- H. split; [discriminate|exact Hf].
Qed.

Lemma first_alternative_chars (l : list text) (s g : text) :
  first_alternative l s = Some g -> g <> [] /\ forallb id_char g = true.
Proof.
  induction l as [|p l IH]; [discriminate|]. simpl.
  destruct (startswith p s).
  - destruct (id_group (skipn (length p) s)) eqn:E; [|exact IH].
    intros H. inversion H. subst. now apply id_group_chars in E.
  - exact IH.
Qed.

Lemma last_v_chars (s g : text) :
  last_v s = Some g -> g <> [] /\ forallb id_char g = true.
Proof.
  induction s as [|c r IH]; [discriminate|].
  cbn [last_v]. destruct (Re.notnl c); [|discriminate].
  destruct (last_v r) as [g'|].
  - intros H. inversion H. subst. now apply IH.
  - destruct (startswith (lit "v=") (c :: r)); [|discriminate].
    apply id_group_chars.
Qed.

(** The pattern of line 25 finds nothing in a group. *)
Lemma query_tail_nothing (g : text) :
  forallb id_char g = true -> Re.sub query_tail g = g.
Proof.
  intros H. unfold Re.sub.
  apply (sub_from_never query_tail (fun _ t => forallb id_char t = true));
    [| |exact H].
  - intros prev c t Ht. simpl in Ht. apply andb_true_iff in Ht. tauto.
  - intros prev t Ht. destruct t as [|c r]; [reflexivity|].
    simpl in Ht. apply andb_true_iff in Ht. destruct Ht as [Hc _].
    unfold id_char in Hc. rewrite negb_true_iff, !orb_false_iff in Hc.
    destruct Hc as [[[H1 _] H3] _]. unfold query_tail. now rewrite H1, H3.
Qed.

Lemma search_chars (s g : text) :
  search direct_pattern s = Some g \/ search query_pattern s = Some g ->
  g <> [] /\ forallb id_char g = true.
Proof.
  intros [H|H]; apply search_found in H; destruct H as [t Ht].
  - now apply first_alternative_chars in Ht.
  - unfold query_pattern in Ht. destruct (startswith _ t); [|discriminate].
    now apply last_v_chars in Ht.
Qed.

(** X9: an identifier returned by [extract_youtube_video_id] is not
    empty and holds no ampersand, question mark, hash or line feed; it
    is the group of the leftmost match of the first pattern in the
    trimmed URL, or, when that pattern matches nowhere, of the second
    one.  The substitution of line 25 never changes it. *)
Theorem extracted_id_is_clean (url video_id : text) :
  extract_youtube_video_id url = Some video_id ->
  video_id <> []
  /\ forallb id_char video_id = true
  /\ (search direct_pattern (strip url) = Some video_id
      \/ (search direct_pattern (strip url) = None
          /\ search query_pattern (strip url) = Some video_id)).
Proof.
  unfold extract_youtube_video_id.
  destruct (search direct_pattern (strip url)) as [g|] eqn:E1.
  - destruct (search_chars (strip url) g (or_introl E1)) as [Hne Hc].
    rewrite (query_tail_nothing g Hc). intros H. inversion H. subst. auto.
  - destruct (search query_pattern (strip url)) as [g|] eqn:E2; [|discriminate].
    destruct (search_chars (strip url) g (or_intror E2)) as [Hne Hc].
    rewrite (query_tail_nothing g Hc). intros H. inversion H. subst. auto.
Qed.

Lemma extracted_id_is_clean_witness :
  extract_youtube_video_id sample_url = Some (lit "dQw4w9WgXcQ")
  /\ lit "dQw4w9WgXcQ" <> []
  /\ forallb id_char (lit "dQw4w9WgXcQ") = true
  /\ (search direct_pattern (strip sample_url) = Some (lit "dQw4w9WgXcQ")
      \/ (search direct_pattern (strip sample_url) = None
          /\ search query_pattern (strip sample_url) = Some (lit "dQw4w9WgXcQ"))).
Proof.
  split; [vm_compute; reflexivity|].
  apply (extracted_id_is_clean sample_url (lit "dQw4w9WgXcQ")).
  vm_compute. reflexivity.
Defined.


Lemma startswith_app (p t : text) : startswith p (p ++ t) = true.
Proof.
  induction p as [|a p IH]; [reflexivity|]. simpl.
  unfold char_eqb. now rewrite Ascii.eqb_refl.
Qed.

Lemma span_stop (P : ascii -> bool) (w t : text) :
  forallb P w = true ->
  match t with [] => true | c :: _ => negb (P c) end = true ->
  Re.span P (w ++ t) = length w.
Proof.
  intros Hw Ht. rewrite span_app_all by exact Hw.
  destruct t as [|c r]; simpl; [lia|].
  apply negb_true_iff in Ht. rewrite Ht. lia.
Qed.

Lemma firstn_length_app (w t : text) : firstn (length w) (w ++ t) = w.
Proof. induction w as [|c r IH]; [reflexivity|]. simpl. now rewrite IH. Qed.

Lemma id_group_app (id tail : text) :
  id <> [] -> forallb id_char id = true ->
  match tail with [] => true | c :: _ => negb (id_char c) end = true ->
  id_group (id ++ tail) = Some id.
Proof.
  intros Hne Hid Ht. unfold id_group. rewrite (span_stop id_char id tail Hid Ht).
  destruct id as [|c r]; [congruence|]. cbn [length].
  change (S (length r)) with (length (c :: r)). now rewrite firstn_length_app.
Qed.

Lemma direct_pattern_at (p id tail : text) :
  In p url_prefixes ->
  id <> [] -> forallb id_char id = true ->
  match tail with [] => true | c :: _ => negb (id_char c) end = true ->
  direct_pattern (p ++ id ++ tail) = Some id.
Proof.
  intros Hp Hne Hid Ht. pose proof (id_group_app id tail Hne Hid Ht) as Hg.
  unfold direct_pattern, url_prefixes in *. simpl in Hp.
  destruct Hp as [<-|[<-|[<-|[<-|[<-|[]]]]]];
    cbn -[id_group]; rewrite Hg; reflexivity.
Qed.

Lemma first_alternative_other (l : list text) (a c : ascii) (t : text) :
  Forall (fun p => exists p', p = a :: p') l ->
  char_eqb a c = false -> first_alternative l (c :: t) = None.
Proof.
  intros Hl Hc. induction Hl as [|p l [p' ->] _ IH]; [reflexivity|].
  cbn [first_alternative startswith]. now rewrite Hc.
Qed.

Lemma direct_pattern_not_y (c : ascii) (t : text) :
  Re.ch "y"%char c = false -> direct_pattern (c :: t) = None.
Proof.
  intros H. unfold direct_pattern.
  apply (first_alternative_other url_prefixes "y"%char c t); [|exact H].
  repeat constructor; eexists; reflexivity.
Qed.

Lemma search_after (before t : text) (g : text) :
  forallb (fun c => negb (Re.ch "y"%char c)) before = true ->
  direct_pattern t = Some g ->
  search direct_pattern (before ++ t) = Some g.
Proof.
  intros Hb Ht. induction before as [|c r IH].
  - cbn [app]. destruct t; cbn [search]; now rewrite Ht.
  - simpl in Hb. apply andb_true_iff in Hb. destruct Hb as [Hc Hr].
    apply negb_true_iff in Hc. cbn [app search].
    rewrite (direct_pattern_not_y c (r ++ t) Hc). now apply IH.
Qed.

(** X10: round trip.  A trimmed URL made of a text without the letter
    y, one of the five prefixes of the first pattern, a non-empty
    identifier without ampersand, question mark, hash and line feed, and
    a tail that is empty or starts with one of these four characters,
    gives back that identifier. *)
Theorem extract_youtube_video_id_round_trip (before p id tail : text) :
  In p url_prefixes ->
  forallb (fun c => negb (Re.ch "y"%char c)) before = true ->
  id <> [] -> forallb id_char id = true ->
  match tail with [] => true | c :: _ => negb (id_char c) end = true ->
  strip (before ++ p ++ id ++ tail) = before ++ p ++ id ++ tail ->
  extract_youtube_video_id (before ++ p ++ id ++ tail) = Some id.
Proof.
  intros Hp Hb Hne Hid Ht Hs. unfold extract_youtube_video_id. rewrite Hs.
  rewrite (search_after before (p ++ id ++ tail) id Hb
             (direct_pattern_at p id tail Hp Hne Hid Ht)).
  now rewrite (query_tail_nothing id Hid).
Qed.

Lemma extract_youtube_video_id_round_trip_witness :
  In (lit "youtube.com/watch?v=") url_prefixes
  /\ forallb (fun c => negb (Re.ch "y"%char c)) (lit "https://www.") = true
  /\ lit "dQw4w9WgXcQ" <> []
  /\ forallb id_char (lit "dQw4w9WgXcQ") = true
  /\ match lit "&t=10" with [] => true | c :: _ => negb (id_char c) end = true
  /\ strip (lit "https://www." ++ lit "youtube.com/watch?v=" ++ lit "dQw4w9WgXcQ"
            ++ lit "&t=10")
     = lit "https://www." ++ lit "youtube.com/watch?v=" ++ lit "dQw4w9WgXcQ"
       ++ lit "&t=10"
  /\ extract_youtube_video_id
       (lit "https://www." ++ lit "youtube.com/watch?v=" ++ lit "dQw4w9WgXcQ"
        ++ lit "&t=10")
     = Some (lit "dQw4w9WgXcQ").
Proof.
  assert (H1 : In (lit "youtube.com/watch?v=") url_prefixes) by (left; reflexivity).
  assert (H3 : lit "dQw4w9WgXcQ" <> []) by discriminate.
  repeat (split; [first [exact H1|exact H3|vm_compute; reflexivity]|]).
  apply (extract_youtube_video_id_round_trip (lit "https://www.")
           (lit "youtube.com/watch?v=") (lit "dQw4w9WgXcQ") (lit "&t=10"));
    first [exact H1|exact H3|vm_compute; reflexivity].
Defined.

(** ** Properties of the transcript cleaning *)

(** What is kept of a text by a rule that keeps the characters chosen by
    [f] in every match. *)
Lemma sub_from_filter (m : Re.matcher) (f : ascii -> bool) :
  (forall prev t out n, m prev t = Some (out, n) ->
     1 <= n /\ filter f out = filter f (firstn n t)) ->
  forall s prev k,
    filter f (Re.sub_from m prev k s) = filter f (skipn k s).
Proof.
  intros Hm. induction s as [|c r IH]; intros prev k.
  - now destruct k.
  - cbn [Re.sub_from]. destruct k as [|k]; [|apply IH].
    destruct (m prev (c :: r)) as [[out n]|] eqn:E.
    + destruct (Hm _ _ _ _ E) as [Hn Hf].
      rewrite filter_app, IH, Hf.
      destruct n as [|n]; [lia|]. cbn [Nat.sub]. rewrite Nat.sub_0_r.
      rewrite <- filter_app.
      change (skipn n r) with (skipn (S n) (c :: r)).
      now rewrite firstn_skipn.
    + cbn [skipn]. simpl. rewrite (IH (Some c) 0). reflexivity.
Qed.

Lemma pair_free_filter (o c : ascii) (s : text) :
  pair_free o c s
  = pair_free o c (filter (fun x => Re.ch o x || Re.ch c x) s).
Proof.
  assert (Hc : forall r, forallb (fun y => negb (Re.ch c y))
                           (filter (fun x => Re.ch o x || Re.ch c x) r)
                         = forallb (fun y => negb (Re.ch c y)) r).
  { induction r as [|y r IH]; [reflexivity|]. simpl.
    destruct (Re.ch o y) eqn:Eo, (Re.ch c y) eqn:Ec; simpl;
      rewrite ?Ec, ?IH; reflexivity. }
  induction s as [|x r IH]; [reflexivity|]. simpl.
  destruct (Re.ch o x) eqn:Eo; simpl.
  - rewrite Eo, Hc, IH. reflexivity.
  - destruct (Re.ch c x) eqn:Ec; simpl; rewrite ?Eo, ?Hc, IH; reflexivity.
Qed.

Lemma pair_free_tail (o c x : ascii) (r : text) :
  pair_free o c (x :: r) = true -> pair_free o c r = true.
Proof. simpl. rewrite andb_true_iff. tauto. Qed.

(** A rule that only deletes keeps a text free of pairs so. *)
Lemma sub_from_deletes (m : Re.matcher) (o c : ascii) :
  (forall prev t out n, m prev t = Some (out, n) -> out = []) ->
  forall s prev k,
    pair_free o c s = true -> pair_free o c (Re.sub_from m prev k s) = true.
Proof.
  intros Hm. induction s as [|x r IH]; intros prev k Hs; [reflexivity|].
  pose proof (pair_free_tail o c x r Hs) as Hr.
  cbn [Re.sub_from]. destruct k as [|k]; [|now apply IH].
  destruct (m prev (x :: r)) as [[out n]|] eqn:E.
  - rewrite (Hm _ _ _ _ E). cbn [app]. now apply IH.
  - simpl in *. rewrite (IH _ _ Hr), andb_true_r.
    apply andb_true_iff in Hs. destruct Hs as [Hx _].
    destruct (Re.ch o x); [|reflexivity]. simpl in *.
    apply sub_from_forallb; [|exact Hx].
    intros p t out n H. now rewrite (Hm _ _ _ _ H).
Qed.

Lemma lazy_until_none (c : ascii) (r : text) :
  forallb Re.notnl r = true -> Re.lazy_until [c] r = None ->
  forallb (fun y => negb (Re.ch c y)) r = true.
Proof.
  induction r as [|y r IH]; intros Hn H; [reflexivity|].
  simpl in Hn. apply andb_true_iff in Hn. destruct Hn as [Hy Hr].
  cbn [Re.lazy_until startswith] in H. unfold Re.ch. simpl.
  destruct (char_eqb c y); [discriminate|]. simpl in *. rewrite Hy in H.
  destruct (Re.lazy_until [c] r); [discriminate|]. now apply IH.
Qed.

Lemma bracketed_out (o c : ascii) (prev : option ascii) (t out : text) (n : nat) :
  bracketed o c prev t = Some (out, n) -> out = [].
Proof.
  unfold bracketed. destruct t as [|x r]; [discriminate|].
  destruct (Re.ch o x); [|discriminate].
  destruct (Re.lazy_until [c] r); [|discriminate].
  intros H. now inversion H.
Qed.

(** The rule that deletes the pairs leaves none on a text of one line. *)
Lemma bracketed_pair_free (o c : ascii) :
  forall s prev k,
    forallb Re.notnl s = true ->
    pair_free o c (Re.sub_from (bracketed o c) prev k s) = true.
Proof.
  induction s as [|x r IH]; intros prev k Hs; [reflexivity|].
  simpl in Hs. apply andb_true_iff in Hs. destruct Hs as [Hx Hr].
  cbn [Re.sub_from]. destruct k as [|k]; [|now apply IH].
  destruct (bracketed o c prev (x :: r)) as [[out n]|] eqn:E.
  - rewrite (bracketed_out _ _ _ _ _ _ E). cbn [app]. now apply IH.
  - simpl. rewrite (IH _ _ Hr), andb_true_r.
    unfold bracketed in E. destruct (Re.ch o x); [|reflexivity]. simpl.
    destruct (Re.lazy_until [c] r) eqn:El; [discriminate|].
    apply sub_from_forallb; [|now apply lazy_until_none].
    intros p t out n H. now rewrite (bracketed_out _ _ _ _ _ _ H).
Qed.

Lemma sub_run_of_all (cls Q : ascii -> bool) (repl : text) (s : text) :
  forallb Q repl = true ->
  (forall c, cls c = false -> Q c = true) ->
  forall prev k,
    forallb Q (Re.sub_from (Re.run_of cls 1 repl) prev k s) = true.
Proof.
  intros Hr HQ. induction s as [|c r IH]; intros prev k; [reflexivity|].
  cbn [Re.sub_from]. destruct k as [|k]; [|apply IH].
  unfold Re.run_of at 1. cbn [Re.span]. destruct (cls c) eqn:E.
  - cbn [Nat.leb andb]. rewrite forallb_app, Hr. apply IH.
  - cbn [Nat.leb andb]. simpl. rewrite (HQ c E). apply IH.
Qed.

Lemma plain_space_notnl (c : ascii) : plain_space c = true -> Re.notnl c = true.
Proof.
  pose proof (for_all_chars (fun c => implb (plain_space c) (Re.notnl c))) as H.
  specialize (H ltac:(vm_compute; reflexivity) c). cbv beta in H.
  intros Hc. now rewrite Hc in H.
Qed.

Lemma mark_facts (p : ascii) :
  comma_or_end p = true \/ Re.sentence_end p = true ->
  isspace p = false /\ Re.ch "["%char p = false /\ Re.ch "]"%char p = false
  /\ Re.ch "("%char p = false /\ Re.ch ")"%char p = false.
Proof.
  pose proof (for_all_chars
    (fun p => implb (comma_or_end p || Re.sentence_end p)
                (negb (isspace p) && negb (Re.ch "["%char p)
                 && negb (Re.ch "]"%char p) && negb (Re.ch "("%char p)
                 && negb (Re.ch ")"%char p)))) as H.
  specialize (H ltac:(vm_compute; reflexivity) p). cbv beta in H.
  intros Hp. assert (E : comma_or_end p || Re.sentence_end p = true)
    by (apply orb_true_iff; exact Hp).
  rewrite E in H. cbn [implb] in H.
  rewrite !andb_true_iff, !negb_true_iff in H. tauto.
Qed.

Lemma word_facts (c : ascii) :
  isword c = true ->
  isspace c = false /\ Re.ch "["%char c = false /\ Re.ch "]"%char c = false
  /\ Re.ch "("%char c = false /\ Re.ch ")"%char c = false.
Proof.
  pose proof (for_all_chars
    (fun p => implb (isword p)
                (negb (isspace p) && negb (Re.ch "["%char p)
                 && negb (Re.ch "]"%char p) && negb (Re.ch "("%char p)
                 && negb (Re.ch ")"%char p)))) as H.
  specialize (H ltac:(vm_compute; reflexivity) c). cbv beta in H.
  intros Hc. rewrite Hc in H. cbn [implb] in H.
  rewrite !andb_true_iff, !negb_true_iff in H. tauto.
Qed.

Lemma space_facts (c : ascii) :
  isspace c = true ->
  Re.ch "["%char c = false /\ Re.ch "]"%char c = false
  /\ Re.ch "("%char c = false /\ Re.ch ")"%char c = false.
Proof.
  pose proof (for_all_chars
    (fun p => implb (isspace p)
                (negb (Re.ch "["%char p)
                 && negb (Re.ch "]"%char p) && negb (Re.ch "("%char p)
                 && negb (Re.ch ")"%char p)))) as H.
  specialize (H ltac:(vm_compute; reflexivity) c). cbv beta in H.
  intros Hc. rewrite Hc in H. cbn [implb] in H.
  rewrite !andb_true_iff, !negb_true_iff in H. tauto.
Qed.

Lemma lowercase_word (l : ascii) : islower_ascii l = true -> isword l = true.
Proof.
  intros H. unfold isword. rewrite H. now rewrite !orb_true_r.
Qed.

(** What the two spacing rules match: the first character, white space,
    and the last character. *)
Lemma space_before_mark_match (prev : option ascii) (t out : text) (n : nat) :
  space_before_mark prev t = Some (out, n) ->
  exists c p ws rest,
    t = c :: ws ++ p :: rest /\ forallb isspace ws = true
    /\ isword c = true /\ comma_or_end p = true
    /\ out = [c; p] /\ n = 1 + length ws + 1.
Proof.
  unfold space_before_mark. destruct t as [|c r]; [discriminate|].
  destruct (isword c) eqn:Ec; [|discriminate].
  pose proof (span_firstn isspace r) as Hws.
  pose proof (firstn_skipn (Re.span isspace r) r) as Hsplit.
  pose proof (firstn_le_length (Re.span isspace r) r) as Hlen.
  destruct (Re.span isspace r) as [|k] eqn:Ek; [discriminate|].
  destruct (skipn (S k) r) as [|p rest] eqn:Es; [discriminate|].
  destruct (comma_or_end p) eqn:Ep; [|discriminate].
  intros H. inversion H. subst out n.
  exists c, p, (firstn (S k) r), rest.
  rewrite Hsplit. repeat split; try assumption.
  assert (Hl : length (firstn (S k) r) = S k).
  { apply firstn_length_le.
    assert (length r = length (firstn (S k) r) + length (p :: rest)).
    { rewrite <- Hsplit at 1. apply length_app. }
    destruct (Nat.le_gt_cases (S k) (length r)) as [Hle|Hgt]; [exact Hle|].
    rewrite firstn_all2 in H0 by lia. simpl in H0. lia. }
  now rewrite Hl.
Qed.

Lemma sentence_start_match (prev : option ascii) (t out : text) (n : nat) :
  sentence_start prev t = Some (out, n) ->
  exists p l ws rest,
    t = p :: ws ++ l :: rest /\ forallb isspace ws = true
    /\ Re.sentence_end p = true /\ islower_ascii l = true
    /\ out = [p; " "%char; l] /\ n = 1 + length ws + 1.
Proof.
  unfold sentence_start. destruct t as [|p r]; [discriminate|].
  destruct (Re.sentence_end p) eqn:Ep; [|discriminate].
  pose proof (span_firstn isspace r) as Hws.
  pose proof (firstn_skipn (Re.span isspace r) r) as Hsplit.
  set (k := Re.span isspace r) in *.
  destruct (skipn k r) as [|l rest] eqn:Es; [discriminate|].
  destruct (islower_ascii l) eqn:El; [|discriminate].
  intros H. inversion H. subst out n.
  exists p, l, (firstn k r), rest.
  rewrite Hsplit. repeat split; try assumption.
  assert (Hl : length (firstn k r) = k).
  { apply firstn_length_le.
    assert (length r = length (firstn k r) + length (l :: rest)).
    { rewrite <- Hsplit at 1. apply length_app. }
    destruct (Nat.le_gt_cases k (length r)) as [Hle|Hgt]; [exact Hle|].
    rewrite firstn_all2 in H0 by lia. simpl in H0. lia. }
  now rewrite Hl.
Qed.

Lemma filter_spaces (f : ascii -> bool) (ws : text) :
  (forall c, isspace c = true -> f c = false) ->
  forallb isspace ws = true -> filter f ws = [].
Proof.
  intros Hf. induction ws as [|c r IH]; intros H; [reflexivity|].
  simpl in H. apply andb_true_iff in H. destruct H as [Hc Hr].
  simpl. now rewrite (Hf c Hc), IH.
Qed.

Lemma firstn_exact (A : Type) (l r : list A) (n : nat) :
  n = length l -> firstn n (l ++ r) = l.
Proof.
  intros ->. rewrite firstn_app, Nat.sub_diag, firstn_all. simpl.
  apply app_nil_r.
Qed.

Lemma filter_lstrip (f : ascii -> bool) (s : text) :
  (forall c, isspace c = true -> f c = false) ->
  filter f (lstrip s) = filter f s.
Proof.
  intros Hf. induction s as [|c r IH]; [reflexivity|].
  simpl. destruct (isspace c) eqn:E; [|reflexivity].
  now rewrite (Hf c E).
Qed.

Lemma filter_rstrip (f : ascii -> bool) (s : text) :
  (forall c, isspace c = true -> f c = false) ->
  filter f (rstrip s) = filter f s.
Proof.
  intros Hf. induction s as [|c r IH]; [reflexivity|].
  rewrite rstrip_cons. cbn [filter]. rewrite <- IH.
  destruct (rstrip r) as [|a l].
  - destruct (isspace c) eqn:E.
    + now rewrite (Hf c E).
    + reflexivity.
  - reflexivity.
Qed.

Lemma bracket_space (o c : ascii) :
  isspace o = false -> isspace c = false ->
  forall x, isspace x = true -> Re.ch o x || Re.ch c x = false.
Proof.
  intros Ho Hc x Hx. unfold Re.ch.
  destruct (char_eqb o x) eqn:E1.
  - apply char_eqb_true in E1. subst x. congruence.
  - destruct (char_eqb c x) eqn:E2; [|reflexivity].
    apply char_eqb_true in E2. subst x. congruence.
Qed.

Lemma space_before_mark_plain (prev : option ascii) (t out : text) (n : nat) :
  space_before_mark prev t = Some (out, n) -> forallb plain_space out = true.
Proof.
  intros H. destruct (space_before_mark_match _ _ _ _ H)
    as (c & p & ws & rest & _ & _ & Hc & Hp & -> & _).
  destruct (word_facts c Hc) as [Ec _].
  destruct (mark_facts p (or_introl Hp)) as [Ep _].
  unfold plain_space. simpl. now rewrite Ec, Ep.
Qed.

Lemma sentence_start_plain (prev : option ascii) (t out : text) (n : nat) :
  sentence_start prev t = Some (out, n) -> forallb plain_space out = true.
Proof.
  intros H. destruct (sentence_start_match _ _ _ _ H)
    as (p & l & ws & rest & _ & _ & Hp & Hl & -> & _).
  destruct (word_facts l (lowercase_word l Hl)) as [El _].
  destruct (mark_facts p (or_intror Hp)) as [Ep _].
  unfold plain_space. simpl. now rewrite El, Ep.
Qed.

Lemma space_before_mark_filter (f : ascii -> bool) :
  (forall c, isspace c = true -> f c = false) ->
  forall prev t out n, space_before_mark prev t = Some (out, n) ->
    1 <= n /\ filter f out = filter f (firstn n t).
Proof.
  intros Hf prev t out n H. destruct (space_before_mark_match _ _ _ _ H)
    as (c & p & ws & rest & -> & Hws & _ & _ & -> & ->).
  split; [lia|].
  change (c :: ws ++ p :: rest) with ((c :: ws) ++ p :: rest).
  replace (1 + length ws + 1) with (length ((c :: ws) ++ [p]))
    by (rewrite length_app; simpl; lia).
  change (p :: rest) with ([p] ++ rest). rewrite app_assoc.
  rewrite firstn_exact by reflexivity.
  cbn [app]. cbn [filter]. rewrite filter_app, (filter_spaces f ws Hf Hws).
  reflexivity.
Qed.

Lemma sentence_start_filter (f : ascii -> bool) :
  (forall c, isspace c = true -> f c = false) ->
  forall prev t out n, sentence_start prev t = Some (out, n) ->
    1 <= n /\ filter f out = filter f (firstn n t).
Proof.
  intros Hf prev t out n H. destruct (sentence_start_match _ _ _ _ H)
    as (p & l & ws & rest & -> & Hws & _ & _ & -> & ->).
  split; [lia|].
  change (p :: ws ++ l :: rest) with ((p :: ws) ++ l :: rest).
  replace (1 + length ws + 1) with (length ((p :: ws) ++ [l]))
    by (rewrite length_app; simpl; lia).
  change (l :: rest) with ([l] ++ rest). rewrite app_assoc.
  rewrite firstn_exact by reflexivity.
  cbn [app]. cbn [filter]. rewrite filter_app, (filter_spaces f ws Hf Hws).
  rewrite (Hf " "%char eq_refl). reflexivity.
Qed.

(** The last two rules and the trimming keep a text free of pairs so. *)
Lemma spacing_pair_free (o c : ascii) (s : text) :
  isspace o = false -> isspace c = false ->
  pair_free o c s = true ->
  pair_free o c (strip (Re.sub sentence_start (Re.sub space_before_mark s))) = true.
Proof.
  intros Ho Hc Hs.
  pose proof (bracket_space o c Ho Hc) as Hf.
  rewrite pair_free_filter. unfold strip.
  rewrite (filter_rstrip _ _ Hf), (filter_lstrip _ _ Hf).
  unfold Re.sub.
  rewrite (sub_from_filter sentence_start _ (sentence_start_filter _ Hf)).
  cbn [skipn].
  rewrite (sub_from_filter space_before_mark _ (space_before_mark_filter _ Hf)).
  cbn [skipn]. now rewrite <- pair_free_filter.
Qed.

(** The sample transcript, cleaned; a space left by a deleted pair stays. *)
Example clean_transcript_sample :
  clean_transcript_text (join [nl] sample_transcript)
  = lit "hello everyone  welcome back, today we look at proofs. and at programs thanks for watching!".
Proof. vm_compute. reflexivity. Qed.

(** X11: for every text, the result of [clean_transcript_text] has no
    white space other than the space, none at either end, no opening
    square bracket with a closing one after it, and no opening
    parenthesis with a closing one after it. *)
Theorem clean_transcript_text_tidy (t : text) :
  forallb plain_space (clean_transcript_text t) = true
  /\ strip (clean_transcript_text t) = clean_transcript_text t
  /\ pair_free "[" "]" (clean_transcript_text t) = true
  /\ pair_free "(" ")" (clean_transcript_text t) = true.
Proof.
  destruct t as [|c0 r0]; [repeat split; reflexivity|].
  unfold clean_transcript_text.
  set (t := c0 :: r0).
  set (t1 := Re.sub (Re.run_of isspace 1 (lit " ")) t).
  set (t2 := Re.sub (bracketed "[" "]") t1).
  set (t3 := Re.sub (bracketed "(" ")") t2).
  assert (H1 : forallb plain_space t1 = true).
  { apply sub_run_of_all; [reflexivity|].
    intros c Hc. unfold plain_space. now rewrite Hc. }
  assert (H2 : forallb plain_space t2 = true).
  { apply sub_forallb; [|exact H1].
    intros p s out n H. now rewrite (bracketed_out _ _ _ _ _ _ H). }
  assert (H3 : forallb plain_space t3 = true).
  { apply sub_forallb; [|exact H2].
    intros p s out n H. now rewrite (bracketed_out _ _ _ _ _ _ H). }
  assert (N1 : forallb Re.notnl t1 = true).
  { apply (forallb_weaken plain_space); [exact plain_space_notnl|exact H1]. }
  assert (N2 : forallb Re.notnl t2 = true).
  { apply (forallb_weaken plain_space); [exact plain_space_notnl|exact H2]. }
  assert (P2 : pair_free "[" "]" t2 = true).
  { apply bracketed_pair_free. exact N1. }
  assert (P3 : pair_free "[" "]" t3 = true).
  { apply sub_from_deletes; [|exact P2].
    intros p s out n H. exact (bracketed_out _ _ _ _ _ _ H). }
  assert (Q3 : pair_free "(" ")" t3 = true).
  { apply bracketed_pair_free. exact N2. }
  split; [|split; [|split]].
  - apply forallb_rstrip, forallb_lstrip.
    apply sub_forallb; [exact sentence_start_plain|].
    apply sub_forallb; [exact space_before_mark_plain|exact H3].
  - apply strip_idem.
  - apply spacing_pair_free; [reflexivity|reflexivity|exact P3].
  - apply spacing_pair_free; [reflexivity|reflexivity|exact Q3].
Qed.

(** ** Properties of the transcript loader *)

Lemma extract_chars (url g : text) :
  extract_youtube_video_id url = Some g -> g <> [] /\ forallb id_char g = true.
Proof.
  unfold extract_youtube_video_id.
  destruct (search direct_pattern (strip url)) as [v|] eqn:E1.
  - destruct (search_chars (strip url) v (or_introl E1)) as [Hne Hc].
    rewrite (query_tail_nothing v Hc). intros H. inversion H. subst. auto.
  - destruct (search query_pattern (strip url)) as [v|] eqn:E2; [|discriminate].
    destruct (search_chars (strip url) v (or_intror E2)) as [Hne Hc].
    rewrite (query_tail_nothing v Hc). intros H. inversion H. subst. auto.
Qed.

Lemma extract_strip (url : text) :
  extract_youtube_video_id (strip url) = extract_youtube_video_id url.
Proof. unfold extract_youtube_video_id. now rewrite strip_idem. Qed.

Lemma clean_transcript_text_trimmed (t : text) :
  strip (clean_transcript_text t) = clean_transcript_text t.
Proof.
  destruct t as [|c r]; [reflexivity|]. unfold clean_transcript_text.
  apply strip_idem.
Qed.

Section TranscriptFacts.

Variable get_transcript : text -> Exn + list text.
Variable fetch_generated_transcript : text -> Exn + list text.

Local Abbreviation fetch_text :=
  (fetch_transcript_text get_transcript fetch_generated_transcript).
Local Abbreviation load :=
  (get_transcript_as_document get_transcript fetch_generated_transcript).

Lemma fetch_text_ok (video_id t : text) :
  fetch_text video_id = inr t ->
  exists transcript,
    t = join [nl] transcript
    /\ (get_transcript video_id = inr transcript
        \/ exists e,
             get_transcript video_id = inl e
             /\ contains (lit "No transcript found") (exn_msg e)
                || contains (lit "Could not retrieve a transcript") (exn_msg e) = true
             /\ fetch_generated_transcript video_id = inr transcript).
Proof.
  unfold fetch_transcript_text.
  destruct (get_transcript video_id) as [e|transcript] eqn:E.
  - destruct (contains (lit "No transcript found") (exn_msg e)
              || contains (lit "Could not retrieve a transcript") (exn_msg e)) eqn:Ec.
    + destruct (fetch_generated_transcript video_id) as [e'|transcript] eqn:Eg;
        [discriminate|].
      intros H. inversion H. exists transcript. split; [reflexivity|].
      right. exists e. auto.
    + destruct (contains (lit "Video is unavailable") (exn_msg e)); [discriminate|].
      destruct (contains (lit "TooManyRequests") (exn_msg e)); discriminate.
  - intros H. inversion H. exists transcript. auto.
Qed.

Lemma fetch_text_fails (video_id : text) (e : Exn) :
  fetch_text video_id = inl e -> exn_kind e = RuntimeError.
Proof.
  unfold fetch_transcript_text.
  destruct (get_transcript video_id) as [e0|transcript]; [|discriminate].
  destruct (contains (lit "No transcript found") (exn_msg e0)
            || contains (lit "Could not retrieve a transcript") (exn_msg e0)).
  - destruct (fetch_generated_transcript video_id); [|discriminate].
    intros H. inversion H. reflexivity.
  - destruct (contains (lit "Video is unavailable") (exn_msg e0)).
    + intros H. inversion H. reflexivity.
    + destruct (contains (lit "TooManyRequests") (exn_msg e0));
        intros H; inversion H; reflexivity.
Qed.

(** What a returned list of documents is. *)
Lemma load_ok (url : text) (docs : list Document) :
  load url = inr docs ->
  exists video_id transcript,
    extract_youtube_video_id url = Some video_id
    /\ fetch_text video_id = inr (join [nl] transcript)
    /\ docs = [mkDocument (clean_transcript_text (join [nl] transcript))
                 (transcript_metadata url)]
    /\ 50 <= length (clean_transcript_text (join [nl] transcript)).
Proof.
  unfold get_transcript_as_document.
  destruct (extract_youtube_video_id url) as [[|c id]|] eqn:Ex; try discriminate.
  destruct (fetch_text (c :: id)) as [e|t] eqn:Ef; [discriminate|].
  intros H.
  destruct (fetch_text_ok _ _ Ef) as (transcript & -> & _).
  exists (c :: id), transcript.
  split; [reflexivity|]. split; [exact Ef|].
  assert (Hc : match join [nl] transcript with
               | [] => join [nl] transcript
               | _ :: _ => clean_transcript_text (join [nl] transcript)
               end = clean_transcript_text (join [nl] transcript))
    by (destruct (join [nl] transcript); reflexivity).
  rewrite Hc in H. clear Hc.
  rewrite clean_transcript_text_trimmed in H.
  destruct (clean_transcript_text (join [nl] transcript)) as [|c2 r2] eqn:Ec;
    [discriminate|].
  rewrite <- Ec in *.
  destruct (length (clean_transcript_text (join [nl] transcript)) <? 50) eqn:El;
    [discriminate|].
  apply Nat.ltb_ge in El. inversion H. split; [reflexivity|exact El].
Qed.

(** X12: when [get_transcript_as_document] returns, it returns one
    document: the cleaned text of the transcript of the extracted
    identifier, taken from the manual transcript or, when that failed
    with one of the two messages of line 49, from the generated one; its
    content has at least 50 characters and its metadata name the URL. *)
Theorem transcript_document_is_substantial (url : text) (docs : list Document) :
  load url = inr docs ->
  exists video_id transcript,
    extract_youtube_video_id url = Some video_id
    /\ (get_transcript video_id = inr transcript
        \/ exists e,
             get_transcript video_id = inl e
             /\ contains (lit "No transcript found") (exn_msg e)
                || contains (lit "Could not retrieve a transcript") (exn_msg e) = true
             /\ fetch_generated_transcript video_id = inr transcript)
    /\ docs = [mkDocument (clean_transcript_text (join [nl] transcript))
                 (transcript_metadata url)]
    /\ 50 <= length (clean_transcript_text (join [nl] transcript)).
Proof.
  intros H. destruct (load_ok url docs H) as (video_id & transcript0 & Hx & Hf & Hd & Hl).
  destruct (fetch_text_ok _ _ Hf) as (transcript & Hj & Hg).
  exists video_id, transcript. rewrite <- Hj. auto.
Qed.

(** The kinds of the errors of the loader. *)
Lemma load_fails (url : text) (e : Exn) :
  load url = inl e ->
  (exn_kind e = ValueError /\ extract_youtube_video_id url = None)
  \/ (exn_kind e = RuntimeError
      /\ exists video_id, extract_youtube_video_id url = Some video_id).
Proof.
  unfold get_transcript_as_document.
  destruct (extract_youtube_video_id url) as [video_id|] eqn:Ex.
  - destruct (extract_chars url video_id Ex) as [Hne _].
    destruct video_id as [|c id]; [congruence|].
    intros H. right. split; [|now exists (c :: id)].
    destruct (fetch_text (c :: id)) as [e0|t] eqn:Ef.
    + inversion H. subst e0. exact (fetch_text_fails _ _ Ef).
    + destruct t as [|c1 r1]; [inversion H; reflexivity|].
      destruct (clean_transcript_text (c1 :: r1)) as [|c2 r2];
        [inversion H; reflexivity|].
      destruct (length (strip (c2 :: r2)) <? 50); [|discriminate].
      inversion H. reflexivity.
  - intros H. inversion H. left. auto.
Qed.

(** X13: an error of [get_transcript_as_document] is a ValueError when
    no identifier can be extracted from the URL, and a RuntimeError
    otherwise: no exception of the transcript library reaches the
    caller. *)
Theorem transcript_errors_are_labelled (url : text) (e : Exn) :
  load url = inl e ->
  (exn_kind e = ValueError /\ extract_youtube_video_id url = None)
  \/ (exn_kind e = RuntimeError
      /\ exists video_id, extract_youtube_video_id url = Some video_id).
Proof. exact (load_fails url e). Qed.

(** X15: for a URL that [validate_youtube_url] accepts,
    [get_transcript_as_document] returns one document of at least 50
    characters or raises a RuntimeError, never the ValueError of line
    40. *)
Theorem validated_url_loads_or_reports (url : text) :
  fst (validate_youtube_url url) = true ->
  match load url with
  | inr docs => exists doc, docs = [doc] /\ 50 <= length (page_content doc)
  | inl e => exn_kind e = RuntimeError
  end.
Proof.
  intros Hv.
  assert (Hx : exists video_id, extract_youtube_video_id url = Some video_id).
  { unfold validate_youtube_url in Hv. destruct url as [|c r]; [discriminate|].
    destruct (negb _); [discriminate|]. rewrite extract_strip in Hv.
    destruct (extract_youtube_video_id (c :: r)) as [video_id|];
      [now exists video_id|discriminate]. }
  destruct Hx as [video_id Hx].
  destruct (load url) as [e|docs] eqn:El.
  - destruct (load_fails url e El) as [[_ Hn]|[Hk _]];
      [congruence|exact Hk].
  - destruct (load_ok url docs El) as (v & transcript & _ & _ & -> & Hl).
    eexists. split; [reflexivity|exact Hl].
Qed.

End TranscriptFacts.

(** ** Properties of the validation of URLs *)

Lemma startswith_prefix (a b t : text) :
  startswith (a ++ b) t = true -> Re.startswith_ci a t = true.
Proof.
  revert t. induction a as [|x a IH]; intros t H; [reflexivity|].
  destruct t as [|y t]; [discriminate|]. simpl in *.
  apply andb_true_iff in H. destruct H as [Hx Ht].
  apply char_eqb_true in Hx. subst y.
  rewrite (IH t Ht), andb_true_r. unfold char_eqb. apply Ascii.eqb_refl.
Qed.

Lemma first_alternative_prefix (l : list text) (s g : text) :
  first_alternative l s = Some g -> exists p, In p l /\ startswith p s = true.
Proof.
  induction l as [|p l IH]; [discriminate|]. simpl.
  destruct (startswith p s) eqn:E.
  - intros _. exists p. auto.
  - intros H. destruct (IH H) as (q & Hq & Hs). exists q. auto.
Qed.

Lemma direct_pattern_domain (t g : text) :
  direct_pattern t = Some g ->
  Re.startswith_ci (lit "youtube.com") t || Re.startswith_ci (lit "youtu.be") t = true.
Proof.
  intros H. apply first_alternative_prefix in H. destruct H as (p & Hp & Hs).
  apply orb_true_iff.
  destruct Hp as [<-|[<-|[<-|[<-|[<-|[]]]]]].
  - left. exact (startswith_prefix (lit "youtube.com") (lit "/watch?v=") t Hs).
  - right. exact (startswith_prefix (lit "youtu.be") (lit "/") t Hs).
  - left. exact (startswith_prefix (lit "youtube.com") (lit "/embed/") t Hs).
  - left. exact (startswith_prefix (lit "youtube.com") (lit "/v/") t Hs).
  - left. exact (startswith_prefix (lit "youtube.com") (lit "/live/") t Hs).
Qed.

Lemma query_pattern_domain (t g : text) :
  query_pattern t = Some g ->
  Re.startswith_ci (lit "youtube.com") t || Re.startswith_ci (lit "youtu.be") t = true.
Proof.
  unfold query_pattern.
  destruct (startswith (lit "youtube.com/watch?") t) eqn:E; [|discriminate].
  intros _. apply orb_true_iff. left.
  exact (startswith_prefix (lit "youtube.com") (lit "/watch?") t E).
Qed.

Lemma search_names (m : text -> option text) (s g : text) :
  (forall t g, m t = Some g ->
     Re.startswith_ci (lit "youtube.com") t || Re.startswith_ci (lit "youtu.be") t = true) ->
  search m s = Some g -> names_youtube s = true.
Proof.
  intros Hm. unfold names_youtube.
  induction s as [|c r IH]; cbn [search].
  - destruct (m []) eqn:E; [|discriminate]. intros _.
    apply Hm in E. cbn [contains_ci]. now rewrite !orb_false_r.
  - destruct (m (c :: r)) eqn:E.
    + intros _. apply Hm in E. cbn [contains_ci].
      apply orb_true_iff in E. apply orb_true_iff.
      destruct E as [E1|E1]; rewrite E1; auto.
    + intros H. specialize (IH H). cbn [contains_ci].
      apply orb_true_iff in IH. apply orb_true_iff.
      destruct IH as [E1|E1]; rewrite E1, orb_true_r; auto.
Qed.

(** A text from which an identifier is extracted names one of the two
    domains. *)
Lemma extract_names (url g : text) :
  extract_youtube_video_id url = Some g -> names_youtube (strip url) = true.
Proof.
  unfold extract_youtube_video_id.
  destruct (search direct_pattern (strip url)) as [v|] eqn:E1.
  - intros _. exact (search_names direct_pattern _ v direct_pattern_domain E1).
  - destruct (search query_pattern (strip url)) as [v|] eqn:E2; [|discriminate].
    intros _. exact (search_names query_pattern _ v query_pattern_domain E2).
Qed.

Lemma id_char_notnl (g : text) :
  forallb id_char g = true -> forallb Re.notnl g = true.
Proof.
  apply forallb_weaken. intros c H. unfold id_char in H.
  rewrite negb_true_iff, !orb_false_iff in H.
  destruct H as [[[_ H] _] _]. unfold Re.notnl, Re.ch in *.
  unfold char_eqb in *. rewrite Ascii.eqb_sym. now rewrite H.
Qed.

(** On a group, the test of line 117 asks for eleven characters of the
    class. *)
Lemma well_formed_id_group (g : text) :
  forallb id_char g = true ->
  well_formed_id g = (length g =? 11) && forallb video_id_char g.
Proof.
  intros Hg. apply id_char_notnl in Hg. unfold well_formed_id.
  destruct (Nat.le_gt_cases (length g) 11) as [Hle|Hgt].
  - rewrite firstn_all2 by exact Hle. rewrite skipn_all2 by exact Hle.
    now rewrite andb_true_r.
  - rewrite length_firstn, Nat.min_l by lia. cbn [Nat.eqb andb].
    replace (length g =? 11) with false by (symmetry; apply Nat.eqb_neq; lia).
    cbn [andb]. 
    destruct (forallb video_id_char (firstn 11 g)); [|reflexivity]. cbn [andb].
    assert (Hs : forallb Re.notnl (skipn 11 g) = true).
    { rewrite <- (firstn_skipn 11 g), forallb_app in Hg.
      apply andb_true_iff in Hg. tauto. }
    destruct (skipn 11 g) as [|c [|d r]] eqn:Es; [| |reflexivity].
    + exfalso. assert (H : length (skipn 11 g) = 0) by now rewrite Es.
      rewrite length_skipn in H. lia.
    + simpl in Hs. rewrite andb_true_r in Hs. unfold Re.notnl in Hs.
      apply negb_true_iff in Hs. unfold Re.ch, char_eqb in *.
      rewrite Ascii.eqb_sym. now rewrite Hs.
Qed.

(** X14: [validate_youtube_url] accepts a URL exactly when
    [extract_youtube_video_id] finds an identifier of eleven characters
    among letters, digits, underscore and hyphen; the test of the domain
    of line 110 never decides, as each pattern of the extraction names
    one of the two domains. *)
Theorem validate_youtube_url_accepts (url : text) :
  fst (validate_youtube_url url) = true
  <-> exists video_id,
        extract_youtube_video_id url = Some video_id
        /\ length video_id = 11
        /\ forallb video_id_char video_id = true.
Proof.
  unfold validate_youtube_url. split.
  - destruct url as [|c r]; [discriminate|].
    destruct (negb _); [discriminate|]. rewrite extract_strip.
    destruct (extract_youtube_video_id (c :: r)) as [g|] eqn:Ex; [|discriminate].
    destruct (extract_chars _ _ Ex) as [Hne Hg].
    destruct g as [|a g]; [congruence|].
    rewrite (well_formed_id_group _ Hg).
    destruct (length (a :: g) =? 11) eqn:El; [|discriminate].
    destruct (forallb video_id_char (a :: g)) eqn:Ev; [|discriminate].
    intros _. exists (a :: g). apply Nat.eqb_eq in El. auto.
  - intros (g & Ex & Hl & Hv).
    destruct (extract_chars _ _ Ex) as [Hne Hg].
    pose proof (extract_names _ _ Ex) as Hn. unfold names_youtube in Hn.
    destruct url as [|c r]; [discriminate|].
    rewrite Hn. cbn [negb]. rewrite extract_strip, Ex.
    destruct g as [|a g]; [congruence|].
    rewrite (well_formed_id_group _ Hg), Hv, Hl. reflexivity.
Qed.

(** ** The transcript loader with its callers *)

Lemma transcript_document_is_substantial_witness :
  get_transcript_as_document no_manual_captions captions sample_url
  = inr sample_transcript_docs
  /\ exists video_id transcript,
       extract_youtube_video_id sample_url = Some video_id
       /\ (no_manual_captions video_id = inr transcript
           \/ exists e,
                no_manual_captions video_id = inl e
                /\ contains (lit "No transcript found") (exn_msg e)
                   || contains (lit "Could not retrieve a transcript") (exn_msg e) = true
                /\ captions video_id = inr transcript)
       /\ sample_transcript_docs
          = [mkDocument (clean_transcript_text (join [nl] transcript))
               (transcript_metadata sample_url)]
       /\ 50 <= length (clean_transcript_text (join [nl] transcript)).
Proof.
  split; [vm_compute; reflexivity|].
  apply (transcript_document_is_substantial no_manual_captions captions sample_url
           sample_transcript_docs).
  vm_compute. reflexivity.
Defined.

Lemma transcript_errors_are_labelled_witness :
  get_transcript_as_document no_manual_captions no_manual_captions sample_url
  = inl no_transcript_available
  /\ ((exn_kind no_transcript_available = ValueError
       /\ extract_youtube_video_id sample_url = None)
      \/ (exn_kind no_transcript_available = RuntimeError
          /\ exists video_id, extract_youtube_video_id sample_url = Some video_id)).
Proof.
  split; [vm_compute; reflexivity|].
  apply (transcript_errors_are_labelled no_manual_captions no_manual_captions
           sample_url no_transcript_available).
  vm_compute. reflexivity.
Defined.

Lemma validated_url_loads_or_reports_witness :
  fst (validate_youtube_url sample_url) = true
  /\ match get_transcript_as_document captions captions sample_url with
     | inr docs => exists doc, docs = [doc] /\ 50 <= length (page_content doc)
     | inl e => exn_kind e = RuntimeError
     end.
Proof.
  split; [vm_compute; reflexivity|].
  apply (validated_url_loads_or_reports captions captions sample_url).
  vm_compute. reflexivity.
Defined.

Section TranscriptSummary.

Variable World : Type.
Variable llm : text -> World -> (Exn + text) * World.
Variable split_documents : nat -> nat -> list Document -> Exn + list Document.
Variable document_separator : text.
Variable get_transcript : text -> Exn + list text.
Variable fetch_generated_transcript : text -> Exn + list text.

(** X16: the documents that [get_transcript_as_document] returns are
    not blank, so [summarize_chain] of generalUtils.py keeps them all and
    never rejects them with its ValueError: it returns a trimmed summary
    of at least 50 characters or raises the error of exhausted
    retries. *)
Theorem transcript_is_summarizable (url : text) (docs : list Document)
    (max_retries : Z) (st : State World) :
  get_transcript_as_document get_transcript fetch_generated_transcript url
  = inr docs ->
  filter nonblank docs = docs
  /\ match summarize_chain llm split_documents document_separator docs
             max_retries st with
     | (inr s, _) => strip s = s /\ 50 <= length s
     | (inl e, _) =>
         exists last_failure, e = retries_exhausted max_retries last_failure
     end.
Proof.
  intros H.
  destruct (load_ok _ _ url docs H) as (video_id & transcript & _ & _ & -> & Hl).
  assert (Hn : filter nonblank
                 [mkDocument (clean_transcript_text (join [nl] transcript))
                    (transcript_metadata url)]
               = [mkDocument (clean_transcript_text (join [nl] transcript))
                    (transcript_metadata url)]).
  { cbn [filter]. unfold nonblank. cbn [page_content].
    rewrite clean_transcript_text_trimmed.
    destruct (clean_transcript_text (join [nl] transcript));
      [simpl in Hl; lia|reflexivity]. }
  split; [exact Hn|].
  pose proof (summarize_chain_outcome World llm split_documents document_separator
                [mkDocument (clean_transcript_text (join [nl] transcript))
                   (transcript_metadata url)] max_retries st) as Ho.
  rewrite Hn in Ho. specialize (Ho ltac:(discriminate)).
  destruct (summarize_chain _ _ _ _ _ _) as [[e|s] st'].
  - destruct Ho as (earlier & last_failure & _ & -> & _). now exists last_failure.
  - exact Ho.
Qed.

End TranscriptSummary.

Lemma transcript_is_summarizable_witness :
  get_transcript_as_document captions captions sample_url = inr sample_transcript_docs
  /\ filter nonblank sample_transcript_docs = sample_transcript_docs
  /\ match summarize_chain (failing_llm rate_limited) identity_splitter
             paragraph_break sample_transcript_docs 2 initial_state with
     | (inr s, _) => strip s = s /\ 50 <= length s
     | (inl e, _) => exists last_failure, e = retries_exhausted 2 last_failure
     end.
Proof.
  split; [vm_compute; reflexivity|].
  apply (transcript_is_summarizable unit (failing_llm rate_limited) identity_splitter
           paragraph_break captions captions sample_url sample_transcript_docs 2
           initial_state).
  vm_compute. reflexivity.
Defined.

(** ** Properties of the prompt builder and of the sampling of the classifier *)

(** X17: for every content type, each of the three templates of
    [create_enhanced_prompts] holds the placeholder [{text}] once and no
    other brace. *)
Theorem prompts_have_one_placeholder (content_type : ContentType) :
  single_placeholder (stuff_prompt (create_enhanced_prompts content_type)) = true
  /\ single_placeholder (map_prompt (create_enhanced_prompts content_type)) = true
  /\ single_placeholder (combine_prompt (create_enhanced_prompts content_type)) = true.
Proof. destruct content_type; repeat split; vm_compute; reflexivity. Qed.

Lemma lower_app (a b : text) : lower (a ++ b) = lower a ++ lower b.
Proof. apply map_app. Qed.

Lemma lower_join (parts : list text) :
  lower (join (lit " ") parts) = join (lit " ") (map lower parts).
Proof.
  induction parts as [|p [|q rest] IH]; [reflexivity|reflexivity|].
  change (join (lit " ") (p :: q :: rest))
    with (p ++ lit " " ++ join (lit " ") (q :: rest)).
  rewrite !lower_app, IH. reflexivity.
Qed.

Lemma sample_text_lower (docs : list Document) :
  sample_text docs
  = join (lit " ") (map (fun doc => lower (page_content doc)) (firstn 3 docs)).
Proof. unfold sample_text. now rewrite lower_join, map_map. Qed.

(** X18: the content type depends only on the lower-cased contents of
    the first three documents: two lists of documents that agree on
    these get the same type, whatever their case, their metadata and
    their further documents. *)
Theorem detect_content_type_sample (docs docs' : list Document) :
  map (fun doc => lower (page_content doc)) (firstn 3 docs)
  = map (fun doc => lower (page_content doc)) (firstn 3 docs') ->
  detect_content_type docs = detect_content_type docs'.
Proof.
  intros H.
  assert (Hs : sample_text docs = sample_text docs')
    by (rewrite !sample_text_lower; now rewrite H).
  unfold detect_content_type, technical_score, narrative_score. rewrite Hs.
  destruct docs as [|d r], docs' as [|d' r']; try reflexivity; discriminate.
Qed.

Lemma detect_content_type_sample_witness :
  map (fun doc => lower (page_content doc)) (firstn 3 mixed_case_docs)
  = map (fun doc => lower (page_content doc)) (firstn 3 lower_case_docs)
  /\ detect_content_type mixed_case_docs = detect_content_type lower_case_docs.
Proof.
  split; [vm_compute; reflexivity|].
  apply (detect_content_type_sample mixed_case_docs lower_case_docs).
  vm_compute. reflexivity.
Defined.

Example mixed_case_docs_type : detect_content_type mixed_case_docs = technical.
Proof. vm_compute. reflexivity. Qed.
